(** * Claudia: credential lifecycle, availability search and tool bridge

    A shallow embedding of the core of the Claudia assistant:
    - [ms_graph_client.py]: the token lifecycle manager
      ([get_tokens_for_user], [refresh_and_save_tokens],
      [get_valid_access_token]) and the availability search
      ([find_free_time_slot]);
    - [OAuthHandler.py]: the authorization callback that creates the
      credential record ([lambda_handler]);
    - [SlackClaudiaWorkerFunctionMCP.py]: the tool bridge
      ([MCPClient.call_mcp_tool] and its helpers).

    Python code that talks to the outside (DynamoDB, the token endpoint,
    the clock, the provider subprocess) is written in a state and
    exception monad over an explicit world; the world records every
    effect in a trace, so "no network call" and "exactly one invocation"
    are statements about that trace. *)

From stdpp Require Import gmap strings list.
From Stdlib Require Import ZArith String Ascii.
From Equations Require Import Equations.

Local Open Scope Z_scope.

(** ** Python primitives *)

Module Py.

(** Exceptions the modelled code can raise or catch. *)
Inductive exn : Type :=
| ConnectionError            (* requests.post fails *)
| JSONDecodeError            (* response.json() / json.loads fails *)
| KeyError (key : string)    (* d[key] on a missing key *)
| ClientError                (* boto3 table operation fails *)
| HTTPError                  (* response.raise_for_status() *)
| ValueError                 (* datetime.fromisoformat on a bad text *)
| OverflowError              (* a timedelta or datetime out of range *)
| AttributeError.            (* a method looked up on None *)

(** What a call produces: a value or a raised exception. *)
Inductive outcome (A : Type) : Type :=
| Returned (a : A)
| Raised (e : exn).
Arguments Returned {A} a.
Arguments Raised {A} e.

(** [sub in s] on Python strings. *)
Fixpoint contains (sub s : string) : bool :=
  String.prefix sub s ||
  match s with
  | EmptyString => false
  | String _ s' => contains sub s'
  end.

Definition lower_ascii (c : ascii) : ascii :=
  let n := nat_of_ascii c in
  if ((65 <=? n) && (n <=? 90))%nat then ascii_of_nat (n + 32) else c.

(** [s.lower()]; characters outside A-Z are left as they are. *)
Fixpoint lower (s : string) : string :=
  match s with
  | EmptyString => EmptyString
  | String c s' => String (lower_ascii c) (lower s')
  end.

(** Truth value of an optional string: [None] and [''] are falsy. *)
Definition truthy (o : option string) : bool :=
  match o with
  | Some s => negb (String.eqb s "")
  | None => false
  end.

(** [range(n)] for a Python int [n]: empty when [n <= 0]. *)
Definition range (n : Z) : list Z := map Z.of_nat (seq 0 (Z.to_nat n)).

End Py.

(** ** Datetimes

    A [datetime] is a number of microseconds since the epoch (the
    resolution of Python's datetime); [isoformat] followed by
    [fromisoformat] is the identity and is not modelled. *)

Module Datetime.

Definition timedelta_seconds (s : Z) : Z := s * 1000000.
Definition timedelta_minutes (m : Z) : Z := m * 60000000.

(** What [dateutil.parser.parse] returns: a wall-clock reading and,
    when the text carried a zone, its offset from UTC. *)
Record parsed := mkParsed { wall : Z; tzinfo : option Z }.

(** An aware datetime, compared by its UTC instant. *)
Definition instant (dt : parsed) : Z :=
  match tzinfo dt with
  | Some off => wall dt - off
  | None => wall dt
  end.

(** [dt.replace(tzinfo=timezone.utc)] *)
Definition replace_tzinfo_utc (dt : parsed) : parsed :=
  mkParsed (wall dt) (Some 0).

End Datetime.

(** ** The world shared by the token manager and the OAuth handler *)

Module World.
Import Py.

(** An item of the tokens table. Every writer of the table
    ([put_item] in OAuthHandler, [update_item] in ms_graph_client) sets
    both tokens, so they are plain fields; the expiry is the only
    attribute that may be missing. *)
Record item := mkItem {
  ms_access_token : string;
  ms_refresh_token : string;
  ms_token_expires_at : option Z
}.

(** The JSON object the token endpoint answers with; a key that is
    absent is [None]. *)
Record token_response := mkTokenResponse {
  resp_error : option string;
  resp_error_description : option string;
  resp_access_token : option string;
  resp_refresh_token : option string;
  resp_expires_in : option Z
}.

Inductive http_reply : Type :=
| PostFails                       (* requests.post raises *)
| BodyNotJson                     (* response.json() raises *)
| Json (body : token_response).

(** The grant presented to the token endpoint. *)
Inductive grant : Type :=
| RefreshGrant (refresh_token : string)
| CodeGrant (code redirect_uri : string).

Inductive store_op : Type := GetItem | PutItem | UpdateItem | DeleteItem.

(** Observable effects, most recent last. *)
Inductive effect : Type :=
| NetPost (g : grant)
| StoreGet (user_id : string)
| StorePut (user_id : string)
| StoreUpdate (user_id : string)
| StoreDelete (user_id : string).

(** The environment. [issuer] and [store_fault] are oracles indexed by
    the number of effects performed so far, so that the outside may
    answer differently from one call to the next. *)
Record world := mkWorld {
  table : gmap string item;
  clock : Z;
  latency : Z;                                (* time a POST takes *)
  issuer : nat -> grant -> http_reply;
  store_fault : nat -> store_op -> bool;
  trace : list effect
}.

Definition M (A : Type) : Type := world -> outcome A * world.

Definition ret {A} (a : A) : M A := fun w => (Returned a, w).
Definition raise {A} (e : exn) : M A := fun w => (Raised e, w).
Definition bind {A B} (m : M A) (k : A -> M B) : M B :=
  fun w => match m w with
           | (Returned a, w') => k a w'
           | (Raised e, w') => (Raised e, w')
           end.
(** [try: m except Exception: h] *)
Definition try_except {A} (m : M A) (h : exn -> M A) : M A :=
  fun w => match m w with
           | (Returned a, w') => (Returned a, w')
           | (Raised e, w') => h e w'
           end.

Definition log (e : effect) (w : world) : world :=
  mkWorld (table w) (clock w) (latency w) (issuer w) (store_fault w)
          (trace w ++ [e]).
Definition set_table (t : gmap string item) (w : world) : world :=
  mkWorld t (clock w) (latency w) (issuer w) (store_fault w) (trace w).
Definition advance (d : Z) (w : world) : world :=
  mkWorld (table w) (clock w + d) (latency w) (issuer w) (store_fault w)
          (trace w).

Definition faulty (op : store_op) (w : world) : bool :=
  store_fault w (List.length (trace w)) op.

(** [datetime.utcnow()] *)
Definition utcnow : M Z := fun w => (Returned (clock w), w).

(** [table.get_item(Key={'user_id': user_id})] followed by
    [response.get('Item')]. *)
Definition table_get_item (user_id : string) : M (option item) :=
  fun w =>
    if faulty GetItem w then (Raised ClientError, log (StoreGet user_id) w)
    else (Returned (table w !! user_id), log (StoreGet user_id) w).

(** [table.put_item(Item=...)]: replaces the whole item. *)
Definition table_put_item (user_id : string) (it : item) : M unit :=
  fun w =>
    if faulty PutItem w then (Raised ClientError, log (StorePut user_id) w)
    else (Returned tt,
          log (StorePut user_id) (set_table (<[user_id := it]> (table w)) w)).

(** [table.update_item] with [SET ms_access_token = :a,
    ms_refresh_token = :r, ms_token_expires_at = :e]: the three
    attributes are overwritten (the item is created when missing). *)
Definition table_update_item (user_id : string) (a r : string) (e : Z)
  : M unit :=
  fun w =>
    if faulty UpdateItem w
    then (Raised ClientError, log (StoreUpdate user_id) w)
    else (Returned tt,
          log (StoreUpdate user_id)
              (set_table (<[user_id := mkItem a r (Some e)]> (table w)) w)).

(** [table.delete_item(Key={'user_id': user_id})] *)
Definition table_delete_item (user_id : string) : M unit :=
  fun w =>
    if faulty DeleteItem w
    then (Raised ClientError, log (StoreDelete user_id) w)
    else (Returned tt,
          log (StoreDelete user_id) (set_table (delete user_id (table w)) w)).

(** What the token endpoint answers to [g] in the current world, and
    the world after the exchange: the POST is recorded and has taken
    [latency]. *)
Definition reply_to (g : grant) (w : world) : http_reply :=
  issuer w (List.length (trace w)) g.
Definition after_exchange (g : grant) (w : world) : world :=
  advance (latency w) (log (NetPost g) w).

(** [requests.post(token_url, data=token_data)] followed by
    [response.json()]. *)
Definition post_token (g : grant) : M token_response :=
  fun w =>
    match reply_to g w with
    | PostFails => (Raised ConnectionError, after_exchange g w)
    | BodyNotJson => (Raised JSONDecodeError, after_exchange g w)
    | Json body => (Returned body, after_exchange g w)
    end.

(** Projections of the trace used by the statements. *)
Definition is_net (e : effect) : bool :=
  match e with NetPost _ => true | _ => false end.
Definition is_write (e : effect) : bool :=
  match e with StorePut _ | StoreUpdate _ | StoreDelete _ => true | _ => false end.
Definition net_calls (w : world) : list effect := List.filter is_net (trace w).
Definition store_writes (w : world) : list effect := List.filter is_write (trace w).

End World.

Declare Scope py_scope.
Delimit Scope py_scope with py.
Notation "'do' x <- m ; k" := (World.bind m (fun x => k))
  (at level 10, x name, m at level 100, k at level 200) : py_scope.
Notation "'run' m ; k" := (World.bind m (fun _ => k))
  (at level 10, m at level 100, k at level 200) : py_scope.

(** ** ms_graph_client.py: token lifecycle *)

Module MsGraphClient.
Import Py Datetime World.
Local Open Scope string_scope.
Local Open Scope Z_scope.
Local Open Scope py_scope.

(** Retrieves access and refresh tokens for a user from DynamoDB. Any
    exception of the lookup is caught and [None] is returned. *)
Definition get_tokens_for_user (user_id : string) : M (option item) :=
  try_except (table_get_item user_id) (fun _ => ret None).

(** Uses a refresh token to get a new access token and updates
    DynamoDB. *)
Definition refresh_and_save_tokens (user_id refresh_token : string)
  : M (option string) :=
  do token_response <- post_token (RefreshGrant refresh_token);
  match resp_error token_response with
  | Some _ =>
      (* 'error' in token_response *)
      if contains "invalid_grant"
           (default "" (resp_error_description token_response))
      then (run table_delete_item user_id; ret None)
      else ret None
  | None =>
      match resp_access_token token_response with
      | None => raise (KeyError "access_token")
      | Some new_access_token =>
          let new_refresh_token :=
            default refresh_token (resp_refresh_token token_response) in
          let expires_in := default 3600 (resp_expires_in token_response) in
          do now <- utcnow;
          let expires_at := now + timedelta_seconds (expires_in - 300) in
          run table_update_item user_id new_access_token new_refresh_token
                                expires_at;
          ret (Some new_access_token)
      end
  end.

(** Gets a user's token and refreshes it when it is missing its expiry
    or the expiry is in the past. *)
Definition get_valid_access_token (user_id : string) : M (option string) :=
  do user_data <- get_tokens_for_user user_id;
  match user_data with
  | None => ret None
  | Some user_data =>
      match ms_token_expires_at user_data with
      | None => refresh_and_save_tokens user_id (ms_refresh_token user_data)
      | Some expires_at =>
          do now <- utcnow;
          if (expires_at <? now)%Z
          then refresh_and_save_tokens user_id (ms_refresh_token user_data)
          else ret (Some (ms_access_token user_data))
      end
  end.

(** *** Availability search *)

(** A calendar event as far as the search reads it:
    [parser.parse(event['start']['dateTime'])] and
    [parser.parse(event['end']['dateTime'])]. *)
Record cal_event := mkEvent { ev_start : parsed; ev_end : parsed }.

(** Lines 155-162: both bounds are made timezone-aware (a naive bound
    gets [tzinfo=timezone.utc]); the busy interval is the pair of their
    instants. *)
Definition ensure_aware (dt : parsed) : parsed :=
  match tzinfo dt with
  | None => replace_tzinfo_utc dt
  | Some _ => dt
  end.

Definition busy_interval (event : cal_event) : Z * Z :=
  (instant (ensure_aware (ev_start event)),
   instant (ensure_aware (ev_end event))).

(** [busy_times.sort()]: tuples in lexicographic order (a stable
    insertion sort; any stable sort gives the same list). *)
Definition tuple_le (a b : Z * Z) : bool :=
  (a.1 <? b.1) || ((a.1 =? b.1) && (a.2 <=? b.2)).

Fixpoint insert_sorted (x : Z * Z) (l : list (Z * Z)) : list (Z * Z) :=
  match l with
  | [] => [x]
  | y :: l' => if tuple_le x y then x :: l else y :: insert_sorted x l'
  end.

Definition sort (l : list (Z * Z)) : list (Z * Z) :=
  foldr insert_sorted [] l.

(** [any(bs < slot_end and be > slot_start for bs, be in busy_times)] *)
Definition overlap (busy_times : list (Z * Z)) (slot_start slot_end : Z)
  : bool :=
  existsb (fun b => (b.1 <? slot_end) && (b.2 >? slot_start)) busy_times.

(** The granularity of the scan: [timedelta(minutes=15)]. *)
Definition step : Z := timedelta_minutes 15.

(** The [while] loop of lines 174-186, from the current [slot_start].
    It terminates because [slot_start] grows by [step] each round. *)
Equations? scan (busy_times : list (Z * Z)) (duration day_end : Z)
  (slot_start : Z) : option (Z * Z)
  by wf (Z.to_nat ((day_end - (slot_start + duration)) / step + 1)) lt :=
scan busy_times duration day_end slot_start
  with Z_le_gt_dec (slot_start + duration) day_end => {
  | left _ =>
      let slot_end := slot_start + duration in
      if overlap busy_times slot_start slot_end
      then scan busy_times duration day_end (slot_start + step)
      else Some (slot_start, slot_end);
  | right _ => None }.
Proof.
  assert (Hstep : 0 < step) by (unfold step, timedelta_minutes; lia).
  set (q := day_end - (slot_start + duration)).
  replace (day_end - (slot_start + step + duration))
    with (q + (-1) * step) by (unfold q; lia).
  rewrite Z.div_add by lia.
  assert (0 <= q / step) by (apply Z.div_pos; unfold q; lia).
  lia.
Qed.

(** A "HH:MM" preferred start time. *)
Record hhmm := mkHHMM { hour : Z; minute : Z }.

(** [datetime.fromisoformat(f"{date}T{hh}:{mm}:00").replace(tzinfo=utc)],
    with [date] the instant of that day's midnight in UTC. *)
Definition at_time (date : Z) (t : hhmm) : outcome Z :=
  if (0 <=? hour t) && (hour t <? 24) && (0 <=? minute t) && (minute t <? 60)
  then Returned (date + timedelta_minutes (60 * hour t + minute t))
  else Raised ValueError.

(** Finds a free slot of the given duration on a given date.
    [calendar] is what [get_calendar_events_for_day(access_token, date)]
    produced (the events, or the exception of [raise_for_status]);
    [date] is the instant of the day's midnight in UTC. The result is
    the pair of the slot's start and end. *)
Definition find_free_time_slot (calendar : outcome (list cal_event))
  (date duration_minutes : Z) (preferred_start_time : option hhmm)
  : outcome (option (Z * Z)) :=
  match calendar with
  | Raised e => Raised e
  | Returned events =>
      let busy_times := sort (map busy_interval events) in
      let day_start := date + timedelta_minutes (60 * 8) in
      let day_end := date + timedelta_minutes (60 * 18) in
      let scan_from day_start :=
        Returned (scan busy_times (timedelta_minutes duration_minutes)
                       day_end day_start) in
      match preferred_start_time with
      | Some t =>
          match at_time date t with
          | Returned day_start => scan_from day_start
          | Raised e => Raised e
          end
      | None => scan_from day_start
      end
  end.

End MsGraphClient.

(** ** OAuthHandler.py: the authorization callback *)

Module OAuthHandler.
Import Py World.
Local Open Scope string_scope.
Local Open Scope Z_scope.
Local Open Scope py_scope.

(** The fields of the Lambda event the handler reads. *)
Record event := mkEvent {
  rawPath : option string;
  domainName : option string;       (* requestContext.domainName *)
  query_user_id : option string;    (* queryStringParameters.user_id *)
  query_code : option string;       (* queryStringParameters.code *)
  query_state : option string       (* queryStringParameters.state *)
}.

Inductive response : Type :=
| Response (statusCode : Z) (body : string)
| Redirect (statusCode : Z) (redirect_uri state : string).

Definition redirect_uri_of (domain_name : string) : string :=
  "https://" ++ domain_name ++ "/oauth_microsoft_redirect".

Definition success_page : string :=
  "<html><body><h1>Success!</h1><p>Your Microsoft account is now connected to the Claudia assistant. You can close this window and return to Slack.</p></body></html>".

Definition lambda_handler (ev : event) : M response :=
  let path := rawPath ev in
  if negb (truthy (domainName ev))
  then ret (Response 500 "Could not determine domain name.")
  else
  let domain_name := default "" (domainName ev) in
  if bool_decide (path = Some "/connect_microsoft") then
    (* ROUTE 1: start the login flow *)
    if negb (truthy (query_user_id ev))
    then ret (Response 400 "user_id query parameter is required.")
    else ret (Redirect 302 (redirect_uri_of domain_name)
                       (default "" (query_user_id ev)))
  else if bool_decide (path = Some "/oauth_microsoft_redirect") then
    (* ROUTE 2: handle the redirect back from Microsoft *)
    if negb (truthy (query_code ev)) || negb (truthy (query_state ev))
    then ret (Response 400 "Error: authorization code or state is missing.")
    else
    let auth_code := default "" (query_code ev) in
    let slack_user_id := default "" (query_state ev) in
    do token_response <-
       post_token (CodeGrant auth_code (redirect_uri_of domain_name));
    match resp_error token_response with
    | Some _ =>
        ret (Response 500
               ("Error getting token from Microsoft: " ++
                default "None" (resp_error_description token_response)))
    | None =>
        match resp_access_token token_response,
              resp_refresh_token token_response with
        | None, _ => raise (KeyError "access_token")
        | Some _, None => raise (KeyError "refresh_token")
        | Some access_token, Some refresh_token =>
            (* the item holds user_id and the two tokens, nothing else *)
            run table_put_item slack_user_id
                  (mkItem access_token refresh_token None);
            ret (Response 200 success_page)
        end
    end
  else ret (Response 404 "Not Found").

End OAuthHandler.

(** ** SlackClaudiaWorkerFunctionMCP.py: the tool bridge *)

Module MCPClient.
Import Py.
Local Open Scope string_scope.
Local Open Scope Z_scope.

(** A JSON object handed to or received from the provider, by its
    text. *)
Definition json := string.

Record client := mkClient {
  available_tools : list string;
  mcp_timeout : Z;
  max_retries : Z
}.

Definition default_tools : list string :=
  [ "list-calendar-events"; "get-calendar-event"; "create-calendar-event";
    "update-calendar-event"; "delete-calendar-event"; "get-calendar-view";
    "list-calendars";
    "list-mail-messages"; "send-mail"; "get-mail-message";
    "delete-mail-message"; "list-mail-folders"; "list-mail-folder-messages";
    "list-todo-tasks"; "create-todo-task"; "update-todo-task";
    "delete-todo-task"; "get-todo-task"; "list-todo-task-lists";
    "list-outlook-contacts"; "get-outlook-contact"; "create-outlook-contact";
    "update-outlook-contact"; "delete-outlook-contact";
    "get-current-user";
    "list-drives"; "get-drive-root-item"; "list-folder-files";
    "list-chats"; "get-chat"; "list-chat-messages"; "send-chat-message" ].

(** [MCPClient()] with MCP_TIMEOUT and MCP_MAX_RETRIES unset. *)
Definition default_client : client := mkClient default_tools 30 2.

(** The JSON-RPC request envelope. *)
Record mcp_request := mkRequest {
  jsonrpc : string;
  req_id : Z;
  method : string;
  params_name : string;
  params_arguments : json
}.

(** [parameters or {}] *)
Definition _create_mcp_request (tool_name : string) (parameters : option json)
  : mcp_request :=
  mkRequest "2.0" 1 "tools/call" tool_name (default "{}" parameters).

(** The JSON object on the provider's stdout: its 'result' and 'error'
    keys when present; the error is kept as [str(error_info)]. *)
Record mcp_response := mkResponse {
  resp_result : option json;
  resp_error : option string
}.

(** What [stdout.strip()] holds. *)
Inductive stdout_text : Type :=
| Blank
| Garbage                          (* json.loads raises *)
| Object (r : mcp_response).

(** How one run of the provider process ends. *)
Inductive run_outcome : Type :=
| SpawnFails                       (* Popen or communicate raises *)
| TimeoutExpired
| Exits (returncode : Z) (stdout : stdout_text).

(** The dict [call_mcp_tool] returns. *)
Record tool_result := mkResult {
  success : bool;
  data : option json;
  error : option string;
  error_message : option string
}.

(** The provider side: how the [n]-th run answers a request, and the
    requests written to it so far. *)
Record provider := mkProvider {
  behaviour : nat -> mcp_request -> run_outcome;
  invocations : list mcp_request
}.

(** Process and validate the provider's response. *)
Definition _process_mcp_response (response : mcp_response)
  : option tool_result :=
  match resp_result response with
  | Some result => Some (mkResult true (Some result) None None)
  | None =>
      match resp_error response with
      | Some error_info =>
          if contains "authentication" (lower error_info)
             || contains "login" (lower error_info)
          then Some (mkResult false None (Some "authentication_required")
                       (Some "Please authenticate with Microsoft 365 first"))
          else Some (mkResult false None (Some "tool_error")
                       (Some error_info))
      | None => None
      end
  end.

(** Execute the provider as a subprocess: one run, whose request is
    recorded; every failure of the transport gives [None]. *)
Definition _execute_mcp_subprocess (self : client) (request : mcp_request)
  (retry_count : Z) (p : provider) : option tool_result * provider :=
  let p' := mkProvider (behaviour p) (invocations p ++ [request]) in
  match behaviour p (List.length (invocations p)) request with
  | Exits returncode stdout =>
      if returncode =? 0 then
        match stdout with
        | Object response => (_process_mcp_response response, p')
        | Garbage => (None, p')
        | Blank => (None, p')
        end
      else (None, p')
  | TimeoutExpired => (None, p')
  | SpawnFails => (None, p')
  end.

(** The retry loop of [call_mcp_tool] over the remaining attempts;
    [None] when the loop runs to its end. *)
Fixpoint attempt_loop (self : client) (request : mcp_request)
  (attempts : list Z) (p : provider) : option tool_result * provider :=
  match attempts with
  | [] => (None, p)
  | attempt :: rest =>
      match _execute_mcp_subprocess self request attempt p with
      | (Some result, p') => (Some result, p')
      | (None, p') =>
          (* line 205: [result] is None here, so the test is falsy *)
          attempt_loop self request rest p'
      end
  end.

Definition tool_message (tool_name tail : string) : string :=
  "Tool '" ++ tool_name ++ "' " ++ tail.

(** Call a provider tool with retries. *)
Definition call_mcp_tool (self : client) (tool_name : string)
  (parameters : option json) (p : provider) : tool_result * provider :=
  if negb (bool_decide (tool_name ∈ available_tools self))
  then (mkResult false None (Some "invalid_tool")
          (Some (tool_message tool_name "is not available")), p)
  else
    let mcp_request := _create_mcp_request tool_name parameters in
    match attempt_loop self mcp_request (range (max_retries self + 1)) p with
    | (Some result, p') => (result, p')
    | (None, p') =>
        (mkResult false None (Some "max_retries_exceeded")
           (Some (tool_message tool_name "failed after multiple attempts")),
         p')
    end.

End MCPClient.

(** ** ms_graph_client.py: looking an event up *)

Module MsGraphClientEvents.
Import Py.
Local Open Scope string_scope.

(** A calendar event as [find_event] reads it: [event.get('subject')]
    and the start time as [find_event] prints it,
    [parser.parse(event['start']['dateTime']).strftime('%H:%M')]. *)
Record listed_event := mkListed {
  subject : option string;
  start_hhmm : string
}.

(** Find an event by time or attendee name: the first event, in list
    order, that passes one of the two tests. *)
Fixpoint find_event (events : list listed_event) (time attendee : option string)
  : option listed_event :=
  match events with
  | [] => None
  | event :: rest =>
      let event_time := start_hhmm event in
      if truthy time && contains (default "" time) event_time
      then Some event
      else if truthy attendee
              && contains (lower (default "" attendee))
                          (lower (default "" (subject event)))
      then Some event
      else find_event rest time attendee
  end.

End MsGraphClientEvents.

(** ** SlackClaudiaWorkerFunctionMCP.py: the authentication check *)

Module MCPClientChecks.
Import Py MCPClient.
Local Open Scope string_scope.

(** Check if the provider is authenticated:
    [self.call_mcp_tool('get-current-user')] and
    [result.get('success', False)]. *)
Definition check_authentication (self : client) (p : provider)
  : bool * provider :=
  match call_mcp_tool self "get-current-user" None p with
  | (result, p') => (success result, p')
  end.

End MCPClientChecks.

(** ** SlackClaudiaWorkerFunction.py: the worker that uses the token *)

Module SlackClaudiaWorkerFunction.
Import Py Datetime World MsGraphClient MsGraphClientEvents.
Local Open Scope string_scope.
Local Open Scope list_scope.
Local Open Scope Z_scope.

(** The Slack event inside the Lambda event's body, by the fields the
    handler reads ([text] already stripped). *)
Record slack_event := mkSlackEvent {
  se_type : option string;
  se_user : string;
  se_channel : string;
  se_text : string
}.

(** [json.loads(event.get('body', '{}'))]: text that is not JSON, or
    the body with its event. *)
Inductive lambda_event : Type :=
| BadBody
| Body (event : slack_event).

(** A time written as text by the agent: empty, not a time, or a time
    that [parser.parse] reads. *)
Inductive time_text : Type :=
| NoTime
| BadTime
| GoodTime (dt : parsed).

Definition time_given (t : option time_text) : bool :=
  match t with
  | Some BadTime | Some (GoodTime _) => true
  | Some NoTime | None => false
  end.

(** The agent's JSON answer: the intent and the parameters the
    handler reads, each absent or present. Dates are the instant of
    the day's midnight in UTC. *)
Record parameters := mkParameters {
  duration_days : option Z;
  start_date : option time_text;
  p_subject : option string;
  start_time : option time_text;
  end_time : option time_text;
  content : option string;
  date : option Z;
  time : option string;
  attendee : option string;
  duration_minutes : option Z;
  preferred_start_time : option hhmm
}.

Record action := mkAction { intent : option string; params : parameters }.

(** An event of the calendar as Graph returns it. *)
Record graph_event := mkGraphEvent {
  g_subject : option string;
  g_start : parsed;
  g_end : parsed;
  g_start_hhmm : string
}.

Definition as_cal_event (e : graph_event) : cal_event :=
  MsGraphClient.mkEvent (g_start e) (g_end e).
Definition as_listed_event (e : graph_event) : listed_event :=
  mkListed (g_subject e) (g_start_hhmm e).

(** Calls to Microsoft Graph. A view is asked for between two
    wall-clock readings marked "Z"; a day is the view from 00:00:00Z to
    23:59:59Z of that date. *)
Inductive graph_call : Type :=
| CalendarView (access_token : string) (start_wall end_wall : Z)
| CalendarDay (access_token : string) (day : Z)
| CreateEvent (access_token : string) (subject : option string)
              (start_time end_time : time_text) (content : string).

Inductive graph_reply : Type :=
| GraphFails                        (* raise_for_status raises *)
| GraphEvents (value : list graph_event)
| GraphDone.                        (* a body without 'value' *)

(** What the agent is asked. *)
Inductive agent_input : Type :=
| IntentPrompt (message_text : string) (today : Z)
| Plain (message_text : string).

(** The texts posted to Slack, by their content. *)
Inductive message : Type :=
| ConnectPrompt
| CheckingCalendar
| NothingOnCalendar
| UpcomingEvents (events : list graph_event)
| AskForDetails
| EventCreated (subject : string)
| EventFound (event : listed_event)
| NoMatchingEvent
| Scheduled (subject : option string) (slot_start slot_end : Z)
| NoFreeSlot
| Chat (text : string)
| Apology (e : exn).

Inductive worker_effect : Type :=
| Slack (channel : string) (m : message)
| Agent (session : string) (input : agent_input)
| Graph (call : graph_call).

(** The environment of the worker: the token world, the outside
    services as oracles indexed by the number of effects so far, and
    the effects performed. *)
Record env := mkEnv {
  tokens : world;
  agent : nat -> string -> agent_input -> outcome string;
  decode : string -> outcome action;   (* json.loads of the {...} slice *)
  graph : nat -> graph_call -> graph_reply;
  slack_fault : nat -> bool;
  effects : list worker_effect
}.

Definition W (A : Type) : Type := env -> outcome A * env.

Definition wret {A} (a : A) : W A := fun s => (Returned a, s).
Definition wraise {A} (e : exn) : W A := fun s => (Raised e, s).
Definition wbind {A B} (m : W A) (k : A -> W B) : W B :=
  fun s => match m s with
           | (Returned a, s') => k a s'
           | (Raised e, s') => (Raised e, s')
           end.
Definition wtry {A} (m : W A) (h : exn -> W A) : W A :=
  fun s => match m s with
           | (Returned a, s') => (Returned a, s')
           | (Raised e, s') => h e s'
           end.

Definition record (x : worker_effect) (s : env) : env :=
  mkEnv (tokens s) (agent s) (decode s) (graph s) (slack_fault s)
        (effects s ++ [x]).

(** Run a computation of the token world inside the worker. *)
Definition with_tokens {A} (m : M A) : W A :=
  fun s => match m (tokens s) with
           | (r, w') =>
               (r, mkEnv w' (agent s) (decode s) (graph s) (slack_fault s)
                         (effects s))
           end.

(** [slack_client.chat_postMessage(channel=..., text=...)] *)
Definition chat_postMessage (channel : string) (m : message) : W unit :=
  fun s =>
    if slack_fault s (List.length (effects s))
    then (Raised ConnectionError, record (Slack channel m) s)
    else (Returned tt, record (Slack channel m) s).

(** [bedrock_agent_runtime.invoke_agent] and the reading of its
    completion stream. *)
Definition invoke_agent (session : string) (input : agent_input) : W string :=
  fun s =>
    (agent s (List.length (effects s)) session input,
     record (Agent session input) s).

(** [json.loads(completion_text[find('{'):rfind('}')+1])] *)
Definition read_action (completion_text : string) : W action :=
  fun s => (decode s completion_text, s).

Definition graph_request (call : graph_call) : W graph_reply :=
  fun s => (Returned (graph s (List.length (effects s)) call),
            record (Graph call) s).

(** [ms_graph_client.get_calendar_view]: [raise_for_status], then
    [response.json().get('value', [])]. *)
Definition events_of (call : graph_call) : W (list graph_event) :=
  wbind (graph_request call) (fun reply =>
    match reply with
    | GraphFails => wraise HTTPError
    | GraphEvents value => wret value
    | GraphDone => wret []
    end).

Definition get_calendar_view (access_token : string) (start_wall end_wall : Z)
  : W (list graph_event) :=
  events_of (CalendarView access_token start_wall end_wall).

Definition get_calendar_events_for_day (access_token : string) (day : Z)
  : W (list graph_event) :=
  events_of (CalendarDay access_token day).

(** [ms_graph_client.create_calendar_event]: [raise_for_status]; the
    body of the answer is not used. *)
Definition create_calendar_event (access_token : string)
  (subject : option string) (start_time end_time : time_text)
  (content : string) : W unit :=
  wbind (graph_request
           (CreateEvent access_token subject start_time end_time content))
    (fun reply =>
       match reply with
       | GraphFails => wraise HTTPError
       | _ => wret tt
       end).

(** [ms_graph_client.find_free_time_slot], with its own fetch of the
    day's events; an exception of the fetch leaves the fetch recorded. *)
Definition find_free_time_slot_for (access_token : string) (day : Z)
  (duration_minutes : Z) (preferred_start_time : option hhmm)
  : W (option (Z * Z)) :=
  fun s =>
    match get_calendar_events_for_day access_token day s with
    | (fetched, s') =>
        (find_free_time_slot
           (match fetched with
            | Returned events => Returned (map as_cal_event events)
            | Raised e => Raised e
            end)
           day duration_minutes preferred_start_time, s')
    end.

Definition timedelta_days (d : Z) : Z := d * 86400000000.

(** [datetime.utcnow().strftime('%Y-%m-%d')], as the day's midnight. *)
Definition today_of (now : Z) : Z := now - now mod timedelta_days 1.

(** [parser.parse(text)] *)
Definition parse (t : time_text) : W parsed :=
  match t with
  | GoodTime dt => wret dt
  | BadTime | NoTime => wraise ValueError
  end.

Inductive status : Type := IgnoringNonMention | Complete.

Declare Scope worker_scope.
Notation "'do' x <- m ; k" := (wbind m (fun x => k))
  (at level 10, x name, m at level 100, k at level 200) : worker_scope.
Notation "'run' m ; k" := (wbind m (fun _ => k))
  (at level 10, m at level 100, k at level 200) : worker_scope.
Local Open Scope worker_scope.

(** The body of the [try] block: ask the agent for the intent, then
    act on it (lines 49-198). *)
Definition act (user_id channel_id message_text access_token : string)
  : W unit :=
  do now <- with_tokens utcnow;
  do completion_text <-
     invoke_agent user_id (IntentPrompt message_text (today_of now));
  do action <- read_action completion_text;
  let intent := intent action in
  let parameters := params action in
  if bool_decide (intent = Some "get_calendar") then
    run chat_postMessage channel_id CheckingCalendar;
    let duration := default 1 (duration_days parameters) in
    do start_dt_obj <-
       (if time_given (start_date parameters)
        then do dt <- parse (default NoTime (start_date parameters));
             wret (ensure_aware dt)
        else wret (mkParsed now (Some 0)));
    let start_wall := wall start_dt_obj in
    let end_wall := start_wall + timedelta_days duration in
    do events <- get_calendar_view access_token start_wall end_wall;
    match events with
    | [] => chat_postMessage channel_id NothingOnCalendar
    | _ =>
        if forallb (fun e => bool_decide (is_Some (g_subject e))) events
        then chat_postMessage channel_id (UpcomingEvents events)
        else wraise (KeyError "subject")
    end
  else if bool_decide (intent = Some "create_event") then
    let subject := p_subject parameters in
    if negb (truthy subject) || negb (time_given (start_time parameters))
    then chat_postMessage channel_id AskForDetails
    else
      let start_text := default NoTime (start_time parameters) in
      do end_text <-
         (if negb (time_given (end_time parameters))
          then do dt <- parse start_text;
               wret (GoodTime (mkParsed (wall dt + timedelta_minutes 30)
                                        (tzinfo dt)))
          else wret (default NoTime (end_time parameters)));
      run create_calendar_event access_token subject start_text end_text
            (default "" (content parameters));
      chat_postMessage channel_id (EventCreated (default "" subject))
  else if bool_decide (intent = Some "get_event_details") then
    let day := default (today_of now) (date parameters) in
    do events <- get_calendar_events_for_day access_token day;
    match find_event (map as_listed_event events)
                     (time parameters) (attendee parameters) with
    | Some found =>
        match subject found with
        | Some _ => chat_postMessage channel_id (EventFound found)
        | None => wraise (KeyError "subject")
        end
    | None => chat_postMessage channel_id NoMatchingEvent
    end
  else if bool_decide (intent = Some "find_and_create_event") then
    let subject := p_subject parameters in
    let duration := default 30 (duration_minutes parameters) in
    let day := default (today_of now) (date parameters) in
    do slot <- find_free_time_slot_for access_token day duration
                 (preferred_start_time parameters);
    match slot with
    | Some (slot_start, slot_end) =>
        run create_calendar_event access_token subject
              (GoodTime (mkParsed slot_start (Some 0)))
              (GoodTime (mkParsed slot_end (Some 0)))
              "Auto-scheduled by Claudia";
        chat_postMessage channel_id (Scheduled subject slot_start slot_end)
    | None => chat_postMessage channel_id NoFreeSlot
    end
  else
    (* default: general conversation *)
    do final_response <- invoke_agent user_id (Plain message_text);
    chat_postMessage channel_id (Chat final_response).

Definition lambda_handler (event : lambda_event) : W status :=
  match event with
  | BadBody => wraise JSONDecodeError
  | Body slack_event =>
      if negb (bool_decide (se_type slack_event = Some "app_mention"))
      then wret IgnoringNonMention
      else
        let user_id := se_user slack_event in
        let channel_id := se_channel slack_event in
        let message_text := se_text slack_event in
        (* 1. get a valid Microsoft access token for the user *)
        do access_token <- with_tokens (get_valid_access_token user_id);
        if negb (truthy access_token)
        then run chat_postMessage channel_id ConnectPrompt; wret Complete
        else
          run wtry (act user_id channel_id message_text
                        (default "" access_token))
                   (fun e => chat_postMessage channel_id (Apology e));
          wret Complete
  end.

End SlackClaudiaWorkerFunction.

(** ** SlackClaudiaWorkerFunctionMCP.py: the worker that uses the bridge *)

Module SlackClaudiaWorkerFunctionMCP.
Import Py MCPClient MCPClientChecks.
Local Open Scope string_scope.
Local Open Scope list_scope.

Definition slack_event : Type := SlackClaudiaWorkerFunction.slack_event.
Definition lambda_event : Type := SlackClaudiaWorkerFunction.lambda_event.
Definition status : Type := SlackClaudiaWorkerFunction.status.

(** The agent's JSON answer as the handler reads it: whether
    [use_mcp] is truthy, the tool, the parameters and the legacy
    intent. *)
Record mcp_action := mkMcpAction {
  use_mcp : bool;
  tool : option string;
  tool_parameters : option json;
  legacy_intent : option string
}.

Inductive agent_input : Type :=
| EnhancedPrompt (message_text : string) (available_mcp_tools : list string)
| Plain (message_text : string).

(** Which formatting of a successful result is asked for: the one of
    lines 315-346 for a tool, or the one of lines 365-375. *)
Inductive presentation : Type :=
| ForTool (tool_name : option string)
| ForCalendar.

Inductive message : Type :=
| AuthenticationNotice
| UsingTool (tool_name : option string)
| Formatted (text : string)
| PleaseAuthenticate
| Issue (error_message : string)
| CheckingCalendar
| UnableToAccessCalendar
| Chat (text : string)
| NotSure
| Apology (e : exn).

Inductive worker_effect : Type :=
| Slack (channel : string) (m : message)
| Agent (session : string) (input : agent_input).

(** The environment: the provider behind the bridge, the outside
    services as oracles, and the effects performed. [present] is the
    formatting of a result's data, which may raise on data of an
    unexpected shape. *)
Record env := mkEnv {
  provider_of : provider;
  agent : nat -> string -> agent_input -> outcome string;
  decode : string -> outcome mcp_action;
  present : presentation -> option json -> outcome string;
  slack_fault : nat -> bool;
  effects : list worker_effect
}.

Definition W (A : Type) : Type := env -> outcome A * env.

Definition wret {A} (a : A) : W A := fun s => (Returned a, s).
Definition wraise {A} (e : exn) : W A := fun s => (Raised e, s).
Definition wbind {A B} (m : W A) (k : A -> W B) : W B :=
  fun s => match m s with
           | (Returned a, s') => k a s'
           | (Raised e, s') => (Raised e, s')
           end.
Definition wtry {A} (m : W A) (h : exn -> W A) : W A :=
  fun s => match m s with
           | (Returned a, s') => (Returned a, s')
           | (Raised e, s') => h e s'
           end.

Definition record (x : worker_effect) (s : env) : env :=
  mkEnv (provider_of s) (agent s) (decode s) (present s) (slack_fault s)
        (effects s ++ [x]).

(** Run an operation of the bridge on the provider. *)
Definition on_provider {A} (f : provider -> A * provider) : W A :=
  fun s => match f (provider_of s) with
           | (a, p') =>
               (Returned a,
                mkEnv p' (agent s) (decode s) (present s) (slack_fault s)
                      (effects s))
           end.

Definition chat_postMessage (channel : string) (m : message) : W unit :=
  fun s =>
    if slack_fault s (List.length (effects s))
    then (Raised ConnectionError, record (Slack channel m) s)
    else (Returned tt, record (Slack channel m) s).

Definition invoke_agent (session : string) (input : agent_input) : W string :=
  fun s =>
    (agent s (List.length (effects s)) session input,
     record (Agent session input) s).

Definition read_action (completion_text : string) : W mcp_action :=
  fun s => (decode s completion_text, s).

Definition format_result (how : presentation) (data : option json) : W string :=
  fun s => (present s how data, s).

(** [mcp_client.call_mcp_tool(tool_name, parameters)] with the tool
    name the agent gave; a missing name is in no allow-list. *)
Definition call_tool (self : client) (tool_name : option string)
  (parameters : option json) : W tool_result :=
  match tool_name with
  | Some name => on_provider (call_mcp_tool self name parameters)
  | None =>
      wret (mkResult false None (Some "invalid_tool")
              (Some (tool_message "None" "is not available")))
  end.

Declare Scope mcp_worker_scope.
Notation "'do' x <- m ; k" := (wbind m (fun x => k))
  (at level 10, x name, m at level 100, k at level 200) : mcp_worker_scope.
Notation "'run' m ; k" := (wbind m (fun _ => k))
  (at level 10, m at level 100, k at level 200) : mcp_worker_scope.
Local Open Scope mcp_worker_scope.

(** The body of the [try] block (lines 280-394). *)
Definition act (mcp_client : client)
  (user_id channel_id message_text : string) : W unit :=
  do completion_text <-
     invoke_agent user_id
       (EnhancedPrompt message_text (available_tools mcp_client));
  do action <- read_action completion_text;
  do response_text <-
    (if use_mcp action then
       let tool_name := tool action in
       run chat_postMessage channel_id (UsingTool tool_name);
       do result <- call_tool mcp_client tool_name (tool_parameters action);
       if success result
       then do text <- format_result (ForTool tool_name) (data result);
            wret (Formatted text)
       else if bool_decide (error result = Some "authentication_required")
       then wret PleaseAuthenticate
       else wret (Issue (default "Unknown error" (error_message result)))
     else
       let intent := legacy_intent action in
       if bool_decide (intent = Some "get_calendar") then
         run chat_postMessage channel_id CheckingCalendar;
         do mcp_result <-
            call_tool mcp_client (Some "list-calendar-events")
                      (Some "{'top': 10}");
         if success mcp_result
         then do text <- format_result ForCalendar (data mcp_result);
              wret (Formatted text)
         else wret UnableToAccessCalendar
       else if bool_decide (intent = Some "general_conversation") then
         do response_text <- invoke_agent user_id (Plain message_text);
         wret (Chat response_text)
       else wret NotSure);
  chat_postMessage channel_id response_text.

Definition lambda_handler (mcp_client : client) (event : lambda_event)
  : W status :=
  match event with
  | SlackClaudiaWorkerFunction.BadBody => wraise JSONDecodeError
  | SlackClaudiaWorkerFunction.Body slack_event =>
      if negb (bool_decide
                 (SlackClaudiaWorkerFunction.se_type slack_event
                  = Some "app_mention"))
      then wret SlackClaudiaWorkerFunction.IgnoringNonMention
      else
        let user_id := SlackClaudiaWorkerFunction.se_user slack_event in
        let channel_id := SlackClaudiaWorkerFunction.se_channel slack_event in
        let message_text := SlackClaudiaWorkerFunction.se_text slack_event in
        (* check if the provider is authenticated; continue anyway *)
        do authenticated <- on_provider (check_authentication mcp_client);
        run (if negb authenticated
             then chat_postMessage channel_id AuthenticationNotice
             else wret tt);
        run wtry (act mcp_client user_id channel_id message_text)
                 (fun e => chat_postMessage channel_id (Apology e));
        wret SlackClaudiaWorkerFunction.Complete
  end.

End SlackClaudiaWorkerFunctionMCP.

(** * Properties *)

(** ** Token lifecycle *)

Section TokenLifecycle.
Import Py Datetime World MsGraphClient.
Local Open Scope string_scope.
Local Open Scope list_scope.
Local Open Scope Z_scope.

(** A world used to run the statements on concrete data: one table,
    a clock, a POST latency of a quarter of a second, a token endpoint
    that always gives the same reply, and a store that never fails. *)
Definition sample_world (t : gmap string item) (now : Z) (reply : http_reply)
  : world :=
  mkWorld t now 250000 (fun _ _ => reply) (fun _ _ => false) [].

Definition alice : item := mkItem "at-1" "rt-1" (Some 5000000000).
Definition bob : item := mkItem "at-7" "rt-7" None.
Definition sample_table : gmap string item :=
  <["U-alice" := alice]> (<["U-bob" := bob]> ∅).

(** The issuer's reply counts as a failed exchange that does not say
    the refresh token is invalid: the POST fails, the body is not JSON,
    the body is an error whose description lacks "invalid_grant", or the
    body has neither an error nor an access token. *)
Definition transient_failure (reply : http_reply) : bool :=
  match reply with
  | PostFails | BodyNotJson => true
  | Json body =>
      match resp_error body with
      | Some _ =>
          negb (contains "invalid_grant"
                  (default "" (resp_error_description body)))
      | None =>
          match resp_access_token body with
          | None => true
          | Some _ => false
          end
      end
  end.

(** The record is stale: its expiry is absent or in the past. *)
Definition stale (it : item) (now : Z) : Prop :=
  match ms_token_expires_at it with
  | None => True
  | Some expires_at => expires_at < now
  end.

Lemma get_tokens_for_user_ok user_id w :
  faulty GetItem w = false ->
  get_tokens_for_user user_id w
  = (Returned (table w !! user_id), log (StoreGet user_id) w).
Proof.
  intros Hok. unfold get_tokens_for_user, try_except, table_get_item.
  now rewrite Hok.
Qed.

Lemma get_tokens_for_user_fault user_id w :
  faulty GetItem w = true ->
  get_tokens_for_user user_id w = (Returned None, log (StoreGet user_id) w).
Proof.
  intros Hko. unfold get_tokens_for_user, try_except, table_get_item.
  now rewrite Hko.
Qed.

Lemma net_calls_log e w :
  net_calls (log e w) = net_calls w ++ (if is_net e then [e] else []).
Proof.
  unfold net_calls. simpl. rewrite List.filter_app. simpl.
  now destruct (is_net e).
Qed.

Lemma store_writes_log e w :
  store_writes (log e w) = store_writes w ++ (if is_write e then [e] else []).
Proof.
  unfold store_writes. simpl. rewrite List.filter_app. simpl.
  now destruct (is_write e).
Qed.

(** A lookup is neither a network call nor a write. *)
Lemma lookup_is_silent user_id w :
  net_calls (log (StoreGet user_id) w) = net_calls w
  /\ store_writes (log (StoreGet user_id) w) = store_writes w
  /\ table (log (StoreGet user_id) w) = table w
  /\ clock (log (StoreGet user_id) w) = clock w.
Proof.
  rewrite net_calls_log, store_writes_log. simpl.
  now rewrite !app_nil_r.
Qed.

(** A stale record sends [get_valid_access_token] to the refresh. *)
Lemma get_valid_access_token_stale user_id w it :
  faulty GetItem w = false ->
  table w !! user_id = Some it ->
  stale it (clock w) ->
  get_valid_access_token user_id w
  = refresh_and_save_tokens user_id (ms_refresh_token it)
      (log (StoreGet user_id) w).
Proof.
  intros Hok Hit Hstale. unfold get_valid_access_token, bind.
  rewrite (get_tokens_for_user_ok _ _ Hok), Hit.
  unfold stale in Hstale. destruct (ms_token_expires_at it) as [e|]; [|easy].
  unfold utcnow. simpl.
  now rewrite (proj2 (Z.ltb_lt e (clock w)) Hstale).
Qed.

(** C1. For a user whose record exists with an expiry strictly in the
    future, [get_valid_access_token] returns the stored access token
    unchanged; the only effect is the one store lookup: no network call
    and no write, the table and the clock are as before. Called again in
    the state it leaves, it returns the same token, again with no network
    call and no write. *)
Theorem get_valid_access_token_hot_path user_id w it expires_at :
  faulty GetItem w = false ->
  table w !! user_id = Some it ->
  ms_token_expires_at it = Some expires_at ->
  clock w < expires_at ->
  let w1 := log (StoreGet user_id) w in
  get_valid_access_token user_id w
  = (Returned (Some (ms_access_token it)), w1)
  /\ net_calls w1 = net_calls w
  /\ store_writes w1 = store_writes w
  /\ table w1 = table w
  /\ (faulty GetItem w1 = false ->
      let w2 := log (StoreGet user_id) w1 in
      get_valid_access_token user_id w1
      = (Returned (Some (ms_access_token it)), w2)
      /\ net_calls w2 = net_calls w
      /\ store_writes w2 = store_writes w
      /\ table w2 = table w).
Proof.
  intros Hok Hit Hexp Hfuture.
  assert (Hcall : forall w', faulty GetItem w' = false ->
            table w' = table w -> clock w' = clock w ->
            get_valid_access_token user_id w'
            = (Returned (Some (ms_access_token it)), log (StoreGet user_id) w')).
  { intros w' Hok' Ht Hc. unfold get_valid_access_token, bind.
    rewrite (get_tokens_for_user_ok _ _ Hok'), Ht, Hit, Hexp.
    unfold utcnow. simpl. rewrite Hc.
    now rewrite (proj2 (Z.ltb_ge expires_at (clock w))) by lia. }
  destruct (lookup_is_silent user_id w) as (Hn1 & Hs1 & Ht1 & Hc1).
  cbv zeta. repeat split; try assumption.
  - now apply Hcall.
  - now apply Hcall.
  - destruct (lookup_is_silent user_id (log (StoreGet user_id) w))
      as (Hn2 & _). congruence.
  - destruct (lookup_is_silent user_id (log (StoreGet user_id) w))
      as (_ & Hs2 & _). congruence.
Qed.

Lemma get_valid_access_token_hot_path_witness :
  let w := sample_world sample_table 4000000000 PostFails in
  get_valid_access_token "U-alice" w
  = (Returned (Some "at-1"), log (StoreGet "U-alice") w).
Proof.
  intro w.
  apply (get_valid_access_token_hot_path "U-alice" w alice 5000000000);
    [reflexivity | reflexivity | reflexivity | reflexivity].
Defined.

(** The refresh, case by case on the issuer's reply. *)
Lemma refresh_post_fails user_id rt w :
  reply_to (RefreshGrant rt) w = PostFails ->
  refresh_and_save_tokens user_id rt w
  = (Raised ConnectionError, after_exchange (RefreshGrant rt) w).
Proof.
  intros Hr. unfold refresh_and_save_tokens, bind, post_token.
  now rewrite Hr.
Qed.

Lemma refresh_body_not_json user_id rt w :
  reply_to (RefreshGrant rt) w = BodyNotJson ->
  refresh_and_save_tokens user_id rt w
  = (Raised JSONDecodeError, after_exchange (RefreshGrant rt) w).
Proof.
  intros Hr. unfold refresh_and_save_tokens, bind, post_token.
  now rewrite Hr.
Qed.

Lemma refresh_invalid_grant user_id rt w body err :
  reply_to (RefreshGrant rt) w = Json body ->
  resp_error body = Some err ->
  contains "invalid_grant" (default "" (resp_error_description body)) = true ->
  refresh_and_save_tokens user_id rt w
  = bind (table_delete_item user_id) (fun _ => ret None)
         (after_exchange (RefreshGrant rt) w).
Proof.
  intros Hr He Hd. unfold refresh_and_save_tokens, bind at 1, post_token.
  now rewrite Hr, He, Hd.
Qed.

Lemma refresh_other_error user_id rt w body err :
  reply_to (RefreshGrant rt) w = Json body ->
  resp_error body = Some err ->
  contains "invalid_grant" (default "" (resp_error_description body)) = false ->
  refresh_and_save_tokens user_id rt w
  = (Returned None, after_exchange (RefreshGrant rt) w).
Proof.
  intros Hr He Hd. unfold refresh_and_save_tokens, bind, post_token.
  now rewrite Hr, He, Hd.
Qed.

Lemma refresh_no_access_token user_id rt w body :
  reply_to (RefreshGrant rt) w = Json body ->
  resp_error body = None ->
  resp_access_token body = None ->
  refresh_and_save_tokens user_id rt w
  = (Raised (KeyError "access_token"), after_exchange (RefreshGrant rt) w).
Proof.
  intros Hr He Ha. unfold refresh_and_save_tokens, bind, post_token.
  now rewrite Hr, He, Ha.
Qed.

Lemma refresh_success user_id rt w body new_access_token :
  reply_to (RefreshGrant rt) w = Json body ->
  resp_error body = None ->
  resp_access_token body = Some new_access_token ->
  let w' := after_exchange (RefreshGrant rt) w in
  refresh_and_save_tokens user_id rt w
  = bind (table_update_item user_id new_access_token
            (default rt (resp_refresh_token body))
            (clock w' + timedelta_seconds
                          (default 3600 (resp_expires_in body) - 300)))
         (fun _ => ret (Some new_access_token)) w'.
Proof.
  intros Hr He Ha. unfold refresh_and_save_tokens, bind at 1, post_token.
  now rewrite Hr, He, Ha.
Qed.

(** Store operations and the exchange, seen through the trace. *)
Lemma net_calls_after_exchange g w :
  net_calls (after_exchange g w) = net_calls w ++ [NetPost g].
Proof. unfold after_exchange. apply (net_calls_log (NetPost g) w). Qed.

Lemma net_calls_set_table t w : net_calls (set_table t w) = net_calls w.
Proof. reflexivity. Qed.

Lemma net_calls_delete user_id w :
  net_calls (table_delete_item user_id w).2 = net_calls w.
Proof.
  unfold table_delete_item. destruct (faulty DeleteItem w); simpl;
    rewrite net_calls_log; simpl; now rewrite app_nil_r.
Qed.

Lemma net_calls_update user_id a r e w :
  net_calls (table_update_item user_id a r e w).2 = net_calls w.
Proof.
  unfold table_update_item. destruct (faulty UpdateItem w); simpl;
    rewrite net_calls_log; simpl; now rewrite app_nil_r.
Qed.

(** Whatever the issuer answers, a refresh makes one POST. *)
Lemma refresh_one_exchange user_id rt w :
  net_calls (refresh_and_save_tokens user_id rt w).2
  = net_calls w ++ [NetPost (RefreshGrant rt)].
Proof.
  destruct (reply_to (RefreshGrant rt) w) as [| |body] eqn:Hr.
  - rewrite (refresh_post_fails _ _ _ Hr). apply net_calls_after_exchange.
  - rewrite (refresh_body_not_json _ _ _ Hr). apply net_calls_after_exchange.
  - destruct (resp_error body) as [err|] eqn:He.
    + destruct (contains "invalid_grant"
                  (default "" (resp_error_description body))) eqn:Hd.
      * rewrite (refresh_invalid_grant _ _ _ _ _ Hr He Hd).
        unfold bind, ret.
        pose proof (net_calls_delete user_id
                      (after_exchange (RefreshGrant rt) w)) as Hdel.
        destruct (table_delete_item user_id _) as [[[]|e] w'']; simpl in *;
          rewrite Hdel; apply net_calls_after_exchange.
      * rewrite (refresh_other_error _ _ _ _ _ Hr He Hd).
        apply net_calls_after_exchange.
    + destruct (resp_access_token body) as [a|] eqn:Ha.
      * rewrite (refresh_success _ _ _ _ _ Hr He Ha).
        unfold bind, ret.
        match goal with
        | |- context [table_update_item ?u ?x ?y ?z ?v] =>
            pose proof (net_calls_update u x y z v) as Hupd;
            destruct (table_update_item u x y z v) as [[[]|e] w'']
        end; simpl in *; rewrite Hupd; apply net_calls_after_exchange.
      * rewrite (refresh_no_access_token _ _ _ _ Hr He Ha).
        apply net_calls_after_exchange.
Qed.

(** C2. For a user whose record has no expiry or an expiry in the past,
    [get_valid_access_token] performs exactly one refresh exchange,
    presenting the stored refresh token. When the issuer answers with a
    new access token (and the store accepts the write), the call returns
    that token and the record becomes: the new access token; the
    issuer's new refresh token when present, the old one otherwise; and
    as expiry the issuer-reported expiry (the time of the answer plus
    expires_in, 3600 when the answer omits it) minus exactly 300
    seconds. *)
Theorem get_valid_access_token_refresh user_id w it :
  faulty GetItem w = false ->
  table w !! user_id = Some it ->
  stale it (clock w) ->
  let g := RefreshGrant (ms_refresh_token it) in
  let w1 := log (StoreGet user_id) w in
  let w2 := after_exchange g w1 in
  net_calls (get_valid_access_token user_id w).2 = net_calls w ++ [NetPost g]
  /\ (forall body new_access_token,
        reply_to g w1 = Json body ->
        resp_error body = None ->
        resp_access_token body = Some new_access_token ->
        faulty UpdateItem w2 = false ->
        let reported_expiry :=
          clock w2 + timedelta_seconds (default 3600 (resp_expires_in body)) in
        let new_item :=
          mkItem new_access_token
                 (default (ms_refresh_token it) (resp_refresh_token body))
                 (Some (reported_expiry - timedelta_seconds 300)) in
        (get_valid_access_token user_id w).1
        = Returned (Some new_access_token)
        /\ table (get_valid_access_token user_id w).2
           = <[user_id := new_item]> (table w)).
Proof.
  intros Hok Hit Hstale g w1 w2.
  rewrite (get_valid_access_token_stale _ _ _ Hok Hit Hstale).
  split.
  - rewrite refresh_one_exchange.
    now destruct (lookup_is_silent user_id w) as (-> & _).
  - intros body a Hr He Ha Hupd reported_expiry new_item.
    rewrite (refresh_success _ _ _ _ _ Hr He Ha).
    unfold bind, table_update_item. fold g w1 w2. rewrite Hupd. simpl.
    split; [reflexivity|].
    unfold new_item, reported_expiry, timedelta_seconds.
    replace (clock w2) with (clock w + latency w) by reflexivity.
    do 3 f_equal. lia.
Qed.

Definition rotated : token_response :=
  mkTokenResponse None None (Some "at-2") (Some "rt-2") (Some 3600).
Definition not_rotated : token_response :=
  mkTokenResponse None None (Some "at-2") None (Some 3600).

Lemma get_valid_access_token_refresh_witness :
  let w := sample_world sample_table 6000000000 (Json not_rotated) in
  (get_valid_access_token "U-alice" w).1 = Returned (Some "at-2")
  /\ table (get_valid_access_token "U-alice" w).2
     = <["U-alice" := mkItem "at-2" "rt-1"
                        (Some (6000250000 + 3600000000 - 300000000))]>
         sample_table.
Proof.
  intro w.
  refine (proj2 (get_valid_access_token_refresh "U-alice" w alice _ _ _)
                not_rotated "at-2" _ _ _ _);
    reflexivity.
Defined.

(** C3. When the refresh of a stale record is answered by an error
    whose description contains "invalid_grant" (the refresh token is no
    longer valid), the record is deleted and [get_valid_access_token]
    returns [None]. As long as the user has no record, a later call
    returns [None] as well and makes no network call. *)
Theorem get_valid_access_token_invalid_grant user_id w it body err :
  faulty GetItem w = false ->
  table w !! user_id = Some it ->
  stale it (clock w) ->
  let g := RefreshGrant (ms_refresh_token it) in
  let w1 := log (StoreGet user_id) w in
  let w2 := after_exchange g w1 in
  reply_to g w1 = Json body ->
  resp_error body = Some err ->
  contains "invalid_grant" (default "" (resp_error_description body)) = true ->
  faulty DeleteItem w2 = false ->
  let w3 := (get_valid_access_token user_id w).2 in
  (get_valid_access_token user_id w).1 = Returned None
  /\ table w3 = delete user_id (table w)
  /\ table w3 !! user_id = None
  /\ (forall w', table w' !! user_id = None ->
        (get_valid_access_token user_id w').1 = Returned None
        /\ net_calls (get_valid_access_token user_id w').2 = net_calls w')
  /\ (get_valid_access_token user_id w3).1 = Returned None
  /\ net_calls (get_valid_access_token user_id w3).2 = net_calls w3.
Proof.
  intros Hok Hit Hstale g w1 w2 Hr He Hd Hdel w3.
  assert (Habsent : forall w', table w' !! user_id = None ->
            (get_valid_access_token user_id w').1 = Returned None
            /\ net_calls (get_valid_access_token user_id w').2 = net_calls w').
  { intros w' Hnone. unfold get_valid_access_token, bind.
    destruct (faulty GetItem w') eqn:Hf.
    - rewrite (get_tokens_for_user_fault _ _ Hf). simpl.
      split; [reflexivity | apply lookup_is_silent].
    - rewrite (get_tokens_for_user_ok _ _ Hf), Hnone. simpl.
      split; [reflexivity | apply lookup_is_silent]. }
  assert (Hcall : get_valid_access_token user_id w
                  = (Returned None,
                     log (StoreDelete user_id)
                         (set_table (delete user_id (table w2)) w2))).
  { rewrite (get_valid_access_token_stale _ _ _ Hok Hit Hstale).
    rewrite (refresh_invalid_grant _ _ _ _ _ Hr He Hd).
    unfold bind, table_delete_item. fold g w1 w2. now rewrite Hdel. }
  assert (Ht3 : table w3 = delete user_id (table w)).
  { unfold w3. now rewrite Hcall. }
  assert (Hgone : table w3 !! user_id = None).
  { rewrite Ht3. apply lookup_delete_eq. }
  repeat split; try assumption.
  - now rewrite Hcall.
  - now apply Habsent.
  - now apply Habsent.
  - now apply Habsent.
  - now apply Habsent.
Qed.

Definition token_revoked : token_response :=
  mkTokenResponse (Some "invalid_grant")
    (Some "invalid_grant: the refresh token has expired") None None None.

Lemma get_valid_access_token_invalid_grant_witness :
  let w := sample_world sample_table 6000000000 (Json token_revoked) in
  (get_valid_access_token "U-alice" w).1 = Returned None
  /\ table (get_valid_access_token "U-alice" w).2
     = delete "U-alice" sample_table.
Proof.
  intro w.
  pose proof (get_valid_access_token_invalid_grant "U-alice" w alice
                token_revoked "invalid_grant"
                eq_refl eq_refl eq_refl eq_refl eq_refl eq_refl eq_refl) as H.
  exact (conj (proj1 H) (proj1 (proj2 H))).
Defined.

(** The classification reads the description, not the error code: an
    answer whose code is invalid_grant but whose description does not
    repeat that text leaves the record in place. *)
Definition code_only : token_response :=
  mkTokenResponse (Some "invalid_grant")
    (Some "AADSTS70008: The refresh token has expired due to inactivity.")
    None None None.

Example invalid_grant_code_only_keeps_record :
  let w := sample_world sample_table 6000000000 (Json code_only) in
  (get_valid_access_token "U-alice" w).1 = Returned None
  /\ table (get_valid_access_token "U-alice" w).2 = sample_table.
Proof. split; reflexivity. Qed.

(** An issuer error that is not about the refresh token. *)
Definition issuer_busy : token_response :=
  mkTokenResponse (Some "temporarily_unavailable")
    (Some "The service is temporarily unavailable") None None None.

(** C4, as stated, fails: for an issuer error response that does not
    contain "invalid_grant" the call returns [None], the very outcome it
    returns for a user with no record ("U-carol" below). *)
Lemma transient_error_not_distinguishable :
  let w := sample_world sample_table 6000000000 (Json issuer_busy) in
  table w !! "U-alice" = Some alice
  /\ stale alice (clock w)
  /\ transient_failure (Json issuer_busy) = true
  /\ table w !! "U-carol" = None
  /\ (get_valid_access_token "U-alice" w).1 = Returned None
  /\ (get_valid_access_token "U-carol" w).1 = Returned None.
Proof. repeat split. Qed.

(** C4, amended. For every failure of the refresh exchange other than
    an invalid refresh token, the record is neither changed nor deleted
    and no write reaches the store, so a later call starts from the same
    record. A failed POST, a body that is not JSON and a body with
    neither error nor access token reach the caller as an exception,
    which differs from the [None] of a missing record; an issuer error
    response without "invalid_grant" in its description returns
    [None]. *)
Theorem get_valid_access_token_transient_failure user_id w it :
  faulty GetItem w = false ->
  table w !! user_id = Some it ->
  stale it (clock w) ->
  let g := RefreshGrant (ms_refresh_token it) in
  let w1 := log (StoreGet user_id) w in
  transient_failure (reply_to g w1) = true ->
  let r := get_valid_access_token user_id w in
  table r.2 = table w
  /\ table r.2 !! user_id = Some it
  /\ store_writes r.2 = store_writes w
  /\ match reply_to g w1 with
     | PostFails => r.1 = Raised ConnectionError
     | BodyNotJson => r.1 = Raised JSONDecodeError
     | Json body =>
         match resp_error body with
         | Some _ => r.1 = Returned None
         | None => r.1 = Raised (KeyError "access_token")
         end
     end.
Proof.
  intros Hok Hit Hstale g w1 Htr r. unfold r.
  rewrite (get_valid_access_token_stale _ _ _ Hok Hit Hstale). fold g w1.
  assert (Hw : forall o : outcome (option string),
            table (o, after_exchange g w1).2 = table w
            /\ table (o, after_exchange g w1).2 !! user_id = Some it
            /\ store_writes (o, after_exchange g w1).2 = store_writes w).
  { intros o. simpl. repeat split; [assumption|].
    unfold after_exchange, advance, store_writes. simpl.
    rewrite !List.filter_app. simpl. now rewrite !app_nil_r. }
  unfold transient_failure in Htr.
  destruct (reply_to g w1) as [| |body] eqn:Hr.
  - rewrite (refresh_post_fails _ _ _ Hr).
    destruct (Hw (Raised ConnectionError)) as (? & ? & ?). now repeat split.
  - rewrite (refresh_body_not_json _ _ _ Hr).
    destruct (Hw (Raised JSONDecodeError)) as (? & ? & ?). now repeat split.
  - destruct (resp_error body) as [err|] eqn:He.
    + apply negb_true_iff in Htr.
      rewrite (refresh_other_error _ _ _ _ _ Hr He Htr).
      destruct (Hw (Returned None)) as (? & ? & ?). now repeat split.
    + destruct (resp_access_token body) as [a|] eqn:Ha; [discriminate|].
      rewrite (refresh_no_access_token _ _ _ _ Hr He Ha).
      destruct (Hw (Raised (KeyError "access_token"))) as (? & ? & ?).
      now repeat split.
Qed.

Lemma get_valid_access_token_transient_failure_witness :
  let w := sample_world sample_table 6000000000 BodyNotJson in
  table (get_valid_access_token "U-alice" w).2 = sample_table
  /\ (get_valid_access_token "U-alice" w).1 = Raised JSONDecodeError.
Proof.
  intro w.
  pose proof (get_valid_access_token_transient_failure "U-alice" w alice
                eq_refl eq_refl eq_refl eq_refl) as H.
  exact (conj (proj1 H) (proj2 (proj2 (proj2 H)))).
Defined.

(** C10. When the store lookup raises, [get_valid_access_token]
    swallows the exception and returns [None], exactly what it returns
    for a user who has no record: no exception reaches the caller, and
    no network call or write is made. *)
Theorem get_valid_access_token_store_failure user_id w :
  faulty GetItem w = true ->
  get_valid_access_token user_id w
  = (Returned None, log (StoreGet user_id) w)
  /\ (forall w0, faulty GetItem w0 = false -> table w0 !! user_id = None ->
      (get_valid_access_token user_id w0).1
      = (get_valid_access_token user_id w).1)
  /\ net_calls (get_valid_access_token user_id w).2 = net_calls w
  /\ store_writes (get_valid_access_token user_id w).2 = store_writes w.
Proof.
  intros Hko.
  assert (Hcall : get_valid_access_token user_id w
                  = (Returned None, log (StoreGet user_id) w)).
  { unfold get_valid_access_token, bind.
    now rewrite (get_tokens_for_user_fault _ _ Hko). }
  rewrite Hcall. simpl.
  destruct (lookup_is_silent user_id w) as (Hn & Hs & _).
  repeat split; try assumption.
  intros w0 Hok Hnone. unfold get_valid_access_token, bind.
  now rewrite (get_tokens_for_user_ok _ _ Hok), Hnone.
Qed.

Definition store_down (w : world) : world :=
  mkWorld (table w) (clock w) (latency w) (issuer w) (fun _ _ => true)
          (trace w).

Lemma get_valid_access_token_store_failure_witness :
  let w := store_down (sample_world sample_table 4000000000 PostFails) in
  get_valid_access_token "U-alice" w
  = (Returned None, log (StoreGet "U-alice") w).
Proof.
  intro w.
  apply (get_valid_access_token_store_failure "U-alice" w).
  reflexivity.
Defined.

End TokenLifecycle.

(** ** The expiry of a record over its lifecycle *)

Section ExpiryLifecycle.
Import Py Datetime World MsGraphClient OAuthHandler.
Local Open Scope string_scope.
Local Open Scope list_scope.
Local Open Scope Z_scope.

(** The callback Microsoft redirects to after "U-dave" has logged in. *)
Definition dave_callback : event :=
  mkEvent (Some "/oauth_microsoft_redirect")
          (Some "abc123.execute-api.eu-west-2.amazonaws.com")
          None (Some "0.AAAA-code") (Some "U-dave").

(** C5, as stated, fails right after the initial authorization: the
    token endpoint reports expires_in = 3600, the handler stores the two
    tokens, and the new record has no expiry at all. *)
Lemma initial_record_has_no_expiry :
  let w := sample_world sample_table 6000000000 (Json rotated) in
  resp_expires_in rotated = Some 3600
  /\ (lambda_handler dave_callback w).1 = Returned (Response 200 success_page)
  /\ table w !! "U-dave" = None
  /\ table (lambda_handler dave_callback w).2 !! "U-dave"
     = Some (mkItem "at-2" "rt-2" None).
Proof. repeat split. Qed.

(** What the handler does to the table: nothing, or one [put_item] of
    the two tokens under the user id carried by [state]. *)
Lemma lambda_handler_table ev w :
  table (lambda_handler ev w).2 = table w
  \/ exists user_id a r,
       query_state ev = Some user_id
       /\ table (lambda_handler ev w).2
          = <[user_id := mkItem a r None]> (table w).
Proof.
  unfold lambda_handler.
  destruct (negb (truthy (domainName ev))); [now left|].
  destruct (bool_decide (rawPath ev = Some "/connect_microsoft")).
  { destruct (negb (truthy (query_user_id ev))); now left. }
  destruct (bool_decide (rawPath ev = Some "/oauth_microsoft_redirect"));
    [|now left].
  destruct (query_code ev) as [code|]; [|now left].
  destruct (query_state ev) as [state|] eqn:Hstate;
    [|destruct (negb (truthy (Some code))); now left].
  destruct (negb (truthy (Some code)) || negb (truthy (Some state)));
    [now left|].
  unfold bind, post_token.
  destruct (reply_to _ w) as [| |body]; [now left | now left |].
  destruct (resp_error body); [now left|].
  destruct (resp_access_token body) as [a|]; [|now left].
  destruct (resp_refresh_token body) as [r|]; [|now left].
  unfold table_put_item.
  destruct (faulty PutItem _); [now left|].
  right. exists state, a, r. split; reflexivity.
Qed.

(** What a refresh does to the table: nothing, a delete of the user's
    record, or one update that sets the expiry from the issuer's
    expires_in. *)
Lemma refresh_table user_id rt w :
  let r := refresh_and_save_tokens user_id rt w in
  table r.2 = table w
  \/ table r.2 = delete user_id (table w)
  \/ exists body a,
       reply_to (RefreshGrant rt) w = Json body
       /\ table r.2
          = <[user_id :=
                mkItem a (default rt (resp_refresh_token body))
                  (Some (clock r.2
                         + timedelta_seconds
                             (default 3600 (resp_expires_in body))
                         - timedelta_seconds 300))]> (table w).
Proof.
  intro r. unfold r.
  destruct (reply_to (RefreshGrant rt) w) as [| |body] eqn:Hr.
  - rewrite (refresh_post_fails _ _ _ Hr). now left.
  - rewrite (refresh_body_not_json _ _ _ Hr). now left.
  - destruct (resp_error body) as [err|] eqn:He.
    + destruct (contains "invalid_grant"
                  (default "" (resp_error_description body))) eqn:Hd.
      * rewrite (refresh_invalid_grant _ _ _ _ _ Hr He Hd).
        unfold bind, table_delete_item.
        destruct (faulty DeleteItem _); [now left | right; now left].
      * rewrite (refresh_other_error _ _ _ _ _ Hr He Hd). now left.
    + destruct (resp_access_token body) as [a|] eqn:Ha.
      * rewrite (refresh_success _ _ _ _ _ Hr He Ha).
        unfold bind, table_update_item.
        destruct (faulty UpdateItem _); [now left|].
        right; right. exists body, a. split; [reflexivity|]. simpl.
        unfold timedelta_seconds. do 3 f_equal. lia.
      * rewrite (refresh_no_access_token _ _ _ _ Hr He Ha). now left.
Qed.

(** C5, amended. A record is either as it was or as the last operation
    wrote it. The initial authorization writes it with no expiry (which
    [get_valid_access_token] treats as expired); every refresh that
    writes it sets the expiry to the issuer-reported expiry (the time of
    the answer plus expires_in, 3600 when omitted) minus the 300-second
    margin, never the raw value. *)
Theorem expires_at_over_lifecycle :
  (forall ev w user_id it,
      table (lambda_handler ev w).2 !! user_id = Some it ->
      table w !! user_id = Some it
      \/ (query_state ev = Some user_id /\ ms_token_expires_at it = None))
  /\ (forall user_id rt w u it,
        let r := refresh_and_save_tokens user_id rt w in
        table r.2 !! u = Some it ->
        table w !! u = Some it
        \/ (u = user_id
            /\ exists body,
                 reply_to (RefreshGrant rt) w = Json body
                 /\ ms_token_expires_at it
                    = Some (clock r.2
                            + timedelta_seconds
                                (default 3600 (resp_expires_in body))
                            - timedelta_seconds 300)))
  /\ (forall user_id w it,
        faulty GetItem w = false ->
        table w !! user_id = Some it ->
        ms_token_expires_at it = None ->
        get_valid_access_token user_id w
        = refresh_and_save_tokens user_id (ms_refresh_token it)
            (log (StoreGet user_id) w)).
Proof.
  split; [|split].
  - intros ev w user_id it Hit.
    destruct (lambda_handler_table ev w) as [Heq | (u & a & r & Hst & Heq)];
      rewrite Heq in Hit; [now left|].
    destruct (decide (u = user_id)) as [->|Hne].
    + rewrite lookup_insert_eq in Hit. inversion Hit; subst. now right.
    + rewrite lookup_insert_ne in Hit by assumption. now left.
  - intros user_id rt w u it r Hit.
    destruct (refresh_table user_id rt w)
      as [Heq | [Heq | (body & a & Hr & Heq)]]; fold r in Heq;
      rewrite Heq in Hit.
    + now left.
    + destruct (decide (user_id = u)) as [->|Hne].
      * now rewrite lookup_delete_eq in Hit.
      * rewrite lookup_delete_ne in Hit by assumption. now left.
    + destruct (decide (user_id = u)) as [->|Hne].
      * rewrite lookup_insert_eq in Hit. inversion Hit; subst.
        right. split; [reflexivity|]. now exists body.
      * rewrite lookup_insert_ne in Hit by assumption. now left.
  - intros user_id w it Hok Hit Hnone.
    apply get_valid_access_token_stale; try assumption.
    unfold stale. now rewrite Hnone.
Qed.

Lemma expires_at_over_lifecycle_witness :
  let w := sample_world sample_table 6000000000 (Json rotated) in
  let created := (lambda_handler dave_callback w).2 in
  let refreshed := (get_valid_access_token "U-dave" created).2 in
  (ms_token_expires_at <$> table created !! "U-dave") = Some None
  /\ (ms_token_expires_at <$> table refreshed !! "U-dave")
     = Some (Some (clock refreshed + 3600000000 - 300000000)).
Proof.
  intros w created refreshed.
  destruct expires_at_over_lifecycle as (Hcreate & Hrefresh & Hunset).
  split.
  - destruct (Hcreate dave_callback w "U-dave" (mkItem "at-2" "rt-2" None)
                eq_refl) as [Hold | [_ Hnone]]; [discriminate Hold|].
    reflexivity.
  - pose proof (Hunset "U-dave" created (mkItem "at-2" "rt-2" None)
                  eq_refl eq_refl eq_refl) as Hcall.
    unfold refreshed. rewrite Hcall. reflexivity.
Defined.

End ExpiryLifecycle.

(** ** Availability search *)

Section Availability.
Import Py Datetime MsGraphClient.
Local Open Scope list_scope.
Local Open Scope Z_scope.

(** Clock readings of the day that starts at instant 0. *)
Definition hm (h m : Z) : Z := timedelta_minutes (60 * h + m).
Definition utc (t : Z) : parsed := mkParsed t (Some 0).
Definition naive (t : Z) : parsed := mkParsed t None.

(** Where the scan starts: 08:00, or the preferred start time. *)
Definition window_start (date : Z) (preferred_start_time : option hhmm)
  : outcome Z :=
  match preferred_start_time with
  | Some t => at_time date t
  | None => Returned (date + hm 8 0)
  end.

(** The [k]-th candidate start of a scan that begins at [from]. *)
Definition candidate (from : Z) (k : nat) : Z := from + Z.of_nat k * step.

(** What the scan promises about its result. *)
Definition earliest_fit (busy : list (Z * Z)) (duration window_end from : Z)
  (result : option (Z * Z)) : Prop :=
  match result with
  | Some (slot_start, slot_end) =>
      exists k : nat,
        slot_start = candidate from k
        /\ slot_end = slot_start + duration
        /\ slot_end <= window_end
        /\ overlap busy slot_start slot_end = false
        /\ forall j : nat, (j < k)%nat ->
             candidate from j + duration <= window_end
             /\ overlap busy (candidate from j) (candidate from j + duration)
                = true
  | None =>
      forall k : nat,
        candidate from k + duration <= window_end ->
        overlap busy (candidate from k) (candidate from k + duration) = true
  end.

Lemma step_pos : 0 < step.
Proof. reflexivity. Qed.

Lemma candidate_0 from : candidate from 0 = from.
Proof. unfold candidate. simpl. lia. Qed.

Lemma candidate_S from k :
  candidate from (S k) = candidate (from + step) k.
Proof. unfold candidate. lia. Qed.

Lemma candidate_mono from j k :
  (j <= k)%nat -> candidate from j <= candidate from k.
Proof. intros Hjk. unfold candidate. pose proof step_pos. nia. Qed.

(** The half-open overlap test, over the whole list. *)
Lemma overlap_iff busy slot_start slot_end :
  overlap busy slot_start slot_end = true
  <-> exists b, In b busy /\ b.1 < slot_end /\ b.2 > slot_start.
Proof.
  unfold overlap. rewrite existsb_exists.
  split; intros (b & Hin & Hb); exists b; (split; [assumption|]).
  - apply andb_true_iff in Hb as [H1 H2].
    rewrite Z.gtb_ltb in H2. apply Z.ltb_lt in H1, H2. lia.
  - apply andb_true_iff. rewrite Z.gtb_ltb.
    split; apply Z.ltb_lt; lia.
Qed.

Lemma existsb_insert_sorted f x l :
  existsb f (insert_sorted x l) = f x || existsb f l.
Proof.
  induction l as [|y l IH]; simpl; [reflexivity|].
  destruct (tuple_le x y); simpl; [reflexivity|].
  rewrite IH. now destruct (f x), (f y).
Qed.

(** Sorting the busy intervals does not change the overlap test. *)
Lemma overlap_sort busy slot_start slot_end :
  overlap (sort busy) slot_start slot_end = overlap busy slot_start slot_end.
Proof.
  unfold overlap, sort.
  induction busy as [|b busy IH]; simpl; [reflexivity|].
  now rewrite existsb_insert_sorted, IH.
Qed.

(** The loop returns the first candidate that fits, or nothing when
    every candidate of the window overlaps. *)
Lemma scan_earliest_fit busy duration day_end slot_start :
  earliest_fit busy duration day_end slot_start
    (scan busy duration day_end slot_start).
Proof.
  funelim (scan busy duration day_end slot_start).
  - (* slot_start + duration <= day_end *)
    cbv zeta.
    destruct (overlap busy_times slot_start (slot_start + duration)) eqn:Hov.
    + destruct (scan busy_times duration day_end (slot_start + step))
        as [[a b]|]; simpl in *.
      * destruct H as (k & Ha & Hb & Hle & Hfree & Hbefore).
        exists (S k). rewrite candidate_S.
        repeat split; try assumption.
        all: destruct j as [|j];
          [rewrite candidate_0; try assumption
          | rewrite candidate_S; apply Hbefore; lia].
      * intros [|k] Hk;
          [rewrite candidate_0; assumption
          | rewrite candidate_S in *; now apply H].
    + simpl. exists 0%nat. rewrite candidate_0.
      repeat split; try assumption; lia.
  - (* slot_start + duration > day_end *)
    simpl. intros k Hk. exfalso.
    pose proof (candidate_mono slot_start 0 k ltac:(lia)) as Hmono.
    rewrite candidate_0 in Hmono. lia.
Qed.

Lemma earliest_fit_ext busy busy' duration window_end from result :
  (forall s e, overlap busy s e = overlap busy' s e) ->
  earliest_fit busy duration window_end from result ->
  earliest_fit busy' duration window_end from result.
Proof.
  intros Hext. unfold earliest_fit. destruct result as [[a b]|].
  - intros (k & Ha & Hb & Hle & Hfree & Hbefore). exists k.
    repeat split; try assumption.
    + now rewrite <- Hext.
    + now apply Hbefore.
    + rewrite <- Hext. now apply Hbefore.
  - intros Hall k Hk. rewrite <- Hext. now apply Hall.
Qed.

(** With the events at hand, the search is the scan from the window
    start over the sorted busy intervals. *)
Lemma find_free_time_slot_scan events date duration_minutes pref from :
  window_start date pref = Returned from ->
  find_free_time_slot (Returned events) date duration_minutes pref
  = Returned (scan (sort (map busy_interval events))
                   (timedelta_minutes duration_minutes)
                   (date + hm 18 0) from).
Proof.
  unfold window_start, find_free_time_slot. destruct pref as [t|].
  - intros ->. reflexivity.
  - intros [= <-]. reflexivity.
Qed.

Lemma find_free_time_slot_bad_time events date duration_minutes pref e :
  window_start date pref = Raised e ->
  find_free_time_slot (Returned events) date duration_minutes pref = Raised e.
Proof.
  unfold window_start, find_free_time_slot. destruct pref as [t|].
  - intros ->. reflexivity.
  - discriminate.
Qed.

(** C6. The search window runs from 08:00, or from the preferred start
    time when one is given, to 18:00. The candidates are the window
    start plus multiples of 15 minutes, as long as candidate + duration
    <= window end. The search returns the first candidate that overlaps
    no busy interval, where a busy interval overlaps a candidate when
    busy.start < candidate.end and busy.end > candidate.start, and
    returns none when every candidate overlaps. With busy 10:00-10:30
    and 30 minutes it returns 08:00-08:30; candidate 10:00-10:30 does
    not overlap busy 09:30-10:00, candidate 09:45-10:15 does. *)
Theorem find_free_time_slot_earliest :
  (forall events date duration_minutes preferred_start_time,
      let busy := map busy_interval events in
      let duration := timedelta_minutes duration_minutes in
      let window_end := date + hm 18 0 in
      match window_start date preferred_start_time with
      | Returned from =>
          exists result,
            find_free_time_slot (Returned events) date duration_minutes
                                preferred_start_time = Returned result
            /\ earliest_fit busy duration window_end from result
      | Raised e =>
          find_free_time_slot (Returned events) date duration_minutes
                              preferred_start_time = Raised e
      end)
  /\ (forall date, window_start date None = Returned (date + hm 8 0))
  /\ (forall date h m,
        0 <= h < 24 -> 0 <= m < 60 ->
        window_start date (Some (mkHHMM h m)) = Returned (date + hm h m))
  /\ (forall busy slot_start slot_end,
        overlap busy slot_start slot_end = true
        <-> exists b, In b busy /\ b.1 < slot_end /\ b.2 > slot_start)
  /\ find_free_time_slot
       (Returned [mkEvent (utc (hm 10 0)) (utc (hm 10 30))]) 0 30 None
     = Returned (Some (hm 8 0, hm 8 30))
  /\ overlap [(hm 9 30, hm 10 0)] (hm 10 0) (hm 10 30) = false
  /\ overlap [(hm 9 30, hm 10 0)] (hm 9 45) (hm 10 15) = true
  /\ find_free_time_slot
       (Returned [mkEvent (utc (hm 9 30)) (utc (hm 10 0))]) 0 30
       (Some (mkHHMM 9 45))
     = Returned (Some (hm 10 0, hm 10 30)).
Proof.
  split; [|split; [|split; [|split; [|repeat split]]]].
  - intros events date duration_minutes pref busy duration window_end.
    destruct (window_start date pref) as [from|e] eqn:Hws.
    + eexists. split.
      * apply (find_free_time_slot_scan _ _ _ _ _ Hws).
      * apply earliest_fit_ext with (busy := sort busy).
        -- intros s e. apply overlap_sort.
        -- apply scan_earliest_fit.
    + now apply find_free_time_slot_bad_time.
  - reflexivity.
  - intros date h m Hh Hm. unfold window_start, at_time. simpl.
    replace (0 <=? h) with true by (symmetry; apply Z.leb_le; lia).
    replace (h <? 24) with true by (symmetry; apply Z.ltb_lt; lia).
    replace (0 <=? m) with true by (symmetry; apply Z.leb_le; lia).
    replace (m <? 60) with true by (symmetry; apply Z.ltb_lt; lia).
    reflexivity.
  - apply overlap_iff.
Qed.

(** C7, as stated, fails: an event whose bounds carry no zone is not
    refused. Its readings 08:00 and 09:00 are taken as UTC and compared
    with the candidates, so the search answers 09:00-09:30. *)
Lemma naive_instant_is_accepted :
  let events := [mkEvent (naive (hm 8 0)) (naive (hm 9 0))] in
  Forall (fun ev => tzinfo (ev_start ev) = None /\ tzinfo (ev_end ev) = None)
         events
  /\ find_free_time_slot (Returned events) 0 30 None
     = Returned (Some (hm 9 0, hm 9 30)).
Proof. split; [repeat constructor | reflexivity]. Qed.

(** A bound with its zone made explicit: UTC when it had none. *)
Definition read_as_utc (dt : parsed) : parsed :=
  mkParsed (wall dt) (Some (default 0 (tzinfo dt))).
Definition event_read_as_utc (ev : cal_event) : cal_event :=
  mkEvent (read_as_utc (ev_start ev)) (read_as_utc (ev_end ev)).

Lemma instant_ensure_aware dt :
  tzinfo (ensure_aware dt) = Some (default 0 (tzinfo dt))
  /\ instant (ensure_aware dt) = instant (read_as_utc dt).
Proof.
  unfold ensure_aware, read_as_utc, instant.
  destruct dt as [t [off|]]; simpl; split; (reflexivity || lia).
Qed.

Lemma busy_interval_read_as_utc ev :
  busy_interval (event_read_as_utc ev) = busy_interval ev.
Proof.
  unfold busy_interval, event_read_as_utc, ensure_aware, read_as_utc, instant.
  destruct ev as [[s [so|]] [e [eo|]]]; simpl; f_equal; lia.
Qed.

(** C7, amended. A naive instant is not refused: it is given the UTC
    zone. Every bound is timezone-aware before any comparison, a naive
    one standing for its wall-clock reading in UTC, and the search
    answers exactly as on the same events with UTC written out. The
    events never make the search fail: the only error is that of a
    preferred start time that is not a time of day. *)
Theorem find_free_time_slot_naive_as_utc events date duration_minutes pref :
  find_free_time_slot (Returned events) date duration_minutes pref
  = find_free_time_slot (Returned (map event_read_as_utc events)) date
      duration_minutes pref
  /\ Forall (fun ev =>
         tzinfo (ensure_aware (ev_start ev))
         = Some (default 0 (tzinfo (ev_start ev)))
         /\ tzinfo (ensure_aware (ev_end ev))
            = Some (default 0 (tzinfo (ev_end ev)))) events
  /\ (forall dt, tzinfo dt = None -> instant (ensure_aware dt) = wall dt)
  /\ match find_free_time_slot (Returned events) date duration_minutes pref
     with
     | Returned _ => True
     | Raised e => window_start date pref = Raised e
     end.
Proof.
  repeat split.
  - unfold find_free_time_slot. rewrite map_map.
    now rewrite (map_ext _ _ busy_interval_read_as_utc).
  - apply Forall_forall. intros ev _.
    split; apply instant_ensure_aware.
  - intros dt Hnaive. unfold ensure_aware, instant. rewrite Hnaive. simpl. lia.
  - destruct (window_start date pref) as [from|e] eqn:Hws.
    + now rewrite (find_free_time_slot_scan _ _ _ _ _ Hws).
    + now rewrite (find_free_time_slot_bad_time _ _ _ _ _ Hws).
Qed.

End Availability.

(** ** Tool bridge *)

Section ToolBridge.
Import Py MCPClient.
Local Open Scope string_scope.
Local Open Scope list_scope.
Local Open Scope Z_scope.

(** The provider after [n] more runs on the same request. *)
Definition delivered (request : mcp_request) (n : nat) (p : provider)
  : provider :=
  mkProvider (behaviour p) (invocations p ++ repeat request n).

(** A run fails at the transport level: timeout, crash (the process
    cannot be run or exits with a non-zero code), or a malformed
    response (nothing on stdout, text that is not JSON, or an object
    with neither result nor error). *)
Definition transport_failure (o : run_outcome) : bool :=
  match o with
  | TimeoutExpired | SpawnFails => true
  | Exits returncode stdout =>
      negb (returncode =? 0)
      || match stdout with
         | Blank | Garbage => true
         | Object r =>
             match resp_result r, resp_error r with
             | None, None => true
             | _, _ => false
             end
         end
  end.

(** What one run gives the retry loop. *)
Definition attempt_result (o : run_outcome) : option tool_result :=
  match o with
  | Exits 0 (Object response) => _process_mcp_response response
  | _ => None
  end.

Definition authentication_required : tool_result :=
  mkResult false None (Some "authentication_required")
           (Some "Please authenticate with Microsoft 365 first").

Definition max_retries_exceeded (tool_name : string) : tool_result :=
  mkResult false None (Some "max_retries_exceeded")
           (Some (tool_message tool_name "failed after multiple attempts")).

Lemma execute_mcp_subprocess_eq self request retry_count p :
  _execute_mcp_subprocess self request retry_count p
  = (attempt_result (behaviour p (List.length (invocations p)) request),
     delivered request 1 p).
Proof.
  unfold _execute_mcp_subprocess, attempt_result, delivered. simpl.
  destruct (behaviour p _ request) as [| |rc out]; try reflexivity.
  destruct rc as [|rc|rc]; simpl; try reflexivity.
  now destruct out.
Qed.

Lemma transport_failure_no_result o :
  transport_failure o = true -> attempt_result o = None.
Proof.
  destruct o as [| |rc out]; simpl; try reflexivity.
  destruct rc as [|rc|rc]; simpl; try reflexivity.
  destruct out as [| |r]; try reflexivity.
  unfold _process_mcp_response.
  destruct (resp_result r), (resp_error r); simpl; congruence.
Qed.

Lemma delivered_delivered request n m p :
  delivered request n (delivered request m p) = delivered request (m + n) p.
Proof.
  unfold delivered. simpl. now rewrite <- app_assoc, repeat_app.
Qed.

Lemma delivered_length request n p :
  List.length (invocations (delivered request n p))
  = (List.length (invocations p) + n)%nat.
Proof. unfold delivered. simpl. now rewrite length_app, repeat_length. Qed.

(** The loop stops at the first run that gives a result. *)
Lemma attempt_loop_first_result self request attempts p k result :
  (k < List.length attempts)%nat ->
  (forall i, (i < k)%nat ->
     attempt_result
       (behaviour p (List.length (invocations p) + i)%nat request) = None) ->
  attempt_result
    (behaviour p (List.length (invocations p) + k)%nat request) = Some result ->
  attempt_loop self request attempts p
  = (Some result, delivered request (S k) p).
Proof.
  revert p k. induction attempts as [|attempt rest IH]; intros p k Hk Hfail Hres.
  - simpl in Hk. lia.
  - simpl. rewrite execute_mcp_subprocess_eq. destruct k as [|k].
    + rewrite Nat.add_0_r in Hres. now rewrite Hres.
    + pose proof (Hfail 0%nat ltac:(lia)) as H0.
      rewrite Nat.add_0_r in H0. rewrite H0.
      rewrite (IH (delivered request 1 p) k).
      * now rewrite delivered_delivered.
      * simpl in Hk. lia.
      * intros i Hi. rewrite delivered_length. simpl.
        replace (List.length (invocations p) + 1 + i)%nat
          with (List.length (invocations p) + S i)%nat by lia.
        apply Hfail. lia.
      * rewrite delivered_length. simpl.
        replace (List.length (invocations p) + 1 + k)%nat
          with (List.length (invocations p) + S k)%nat by lia.
        assumption.
Qed.

(** The loop runs to its end when no run gives a result. *)
Lemma attempt_loop_exhausted self request attempts p :
  (forall i, (i < List.length attempts)%nat ->
     attempt_result
       (behaviour p (List.length (invocations p) + i)%nat request) = None) ->
  attempt_loop self request attempts p
  = (None, delivered request (List.length attempts) p).
Proof.
  revert p. induction attempts as [|attempt rest IH]; intros p Hfail.
  - simpl. unfold delivered. simpl. rewrite app_nil_r. now destruct p.
  - simpl. rewrite execute_mcp_subprocess_eq.
    pose proof (Hfail 0%nat ltac:(simpl; lia)) as H0.
    rewrite Nat.add_0_r in H0. rewrite H0.
    rewrite (IH (delivered request 1 p)).
    + now rewrite delivered_delivered.
    + intros i Hi. rewrite delivered_length. simpl.
      replace (List.length (invocations p) + 1 + i)%nat
        with (List.length (invocations p) + S i)%nat by lia.
      apply Hfail. simpl. lia.
Qed.

Lemma range_length n : List.length (range n) = Z.to_nat n.
Proof. unfold range. now rewrite length_map, length_seq. Qed.

Lemma call_mcp_tool_listed self tool_name parameters p :
  tool_name ∈ available_tools self ->
  call_mcp_tool self tool_name parameters p
  = match attempt_loop self (_create_mcp_request tool_name parameters)
            (range (max_retries self + 1)) p with
    | (Some result, p') => (result, p')
    | (None, p') => (max_retries_exceeded tool_name, p')
    end.
Proof.
  intros Hin. unfold call_mcp_tool.
  now rewrite (bool_decide_eq_true_2 _ Hin).
Qed.

(** C8. For an allow-listed tool, when the provider's response to the
    first run is an error (and carries no result) whose text, lowered,
    contains "authentication" or "login", [call_mcp_tool] returns the
    authentication_required result and the provider has been run
    exactly once: there is no retry. *)
Theorem call_mcp_tool_authentication_required
  self tool_name parameters p response error_info :
  tool_name ∈ available_tools self ->
  0 <= max_retries self ->
  let request := _create_mcp_request tool_name parameters in
  behaviour p (List.length (invocations p)) request
  = Exits 0 (Object response) ->
  resp_result response = None ->
  resp_error response = Some error_info ->
  contains "authentication" (lower error_info)
  || contains "login" (lower error_info) = true ->
  call_mcp_tool self tool_name parameters p
  = (authentication_required,
     mkProvider (behaviour p) (invocations p ++ [request])).
Proof.
  intros Hin Hmax request Hrun Hres Herr Hauth.
  rewrite (call_mcp_tool_listed _ _ _ _ Hin). fold request.
  rewrite (attempt_loop_first_result self request _ p 0 authentication_required).
  - reflexivity.
  - rewrite range_length. lia.
  - intros i Hi. lia.
  - rewrite Nat.add_0_r, Hrun. simpl. unfold _process_mcp_response.
    now rewrite Hres, Herr, Hauth.
Qed.

(** A provider that is not logged in. *)
Definition login_needed : run_outcome :=
  Exits 0 (Object (mkResponse None
    (Some "{'code': -32001, 'message': 'Not logged in. Please Login first.'}"))).

Lemma call_mcp_tool_authentication_required_witness :
  let p := mkProvider (fun _ _ => login_needed) [] in
  call_mcp_tool default_client "get-current-user" None p
  = (authentication_required,
     mkProvider (behaviour p)
                [_create_mcp_request "get-current-user" None]).
Proof.
  intro p.
  apply (call_mcp_tool_authentication_required default_client
           "get-current-user" None p
           (mkResponse None
              (Some "{'code': -32001, 'message': 'Not logged in. Please Login first.'}"))
           "{'code': -32001, 'message': 'Not logged in. Please Login first.'}").
  - vm_compute. repeat constructor.
  - simpl. lia.
  - reflexivity.
  - reflexivity.
  - reflexivity.
  - reflexivity.
Defined.

(** C9. For an allow-listed tool and a retry budget [max_retries] that
    is not negative, runs that fail at the transport level are retried
    with the same request envelope, up to [max_retries] further runs.
    If the first [k] runs fail so ([k] within the budget) and the next
    one answers with a result payload, [call_mcp_tool] returns that
    success and the provider has been run [k + 1] times, each time on
    the same request; with the default budget of 2 and [k = 2] that is
    3 runs. If all [max_retries + 1] runs fail so, the result is
    max_retries_exceeded. *)
Theorem call_mcp_tool_retries self tool_name parameters p :
  tool_name ∈ available_tools self ->
  0 <= max_retries self ->
  let request := _create_mcp_request tool_name parameters in
  let nth_run i := behaviour p (List.length (invocations p) + i)%nat request in
  (forall (k : nat) response payload,
      Z.of_nat k <= max_retries self ->
      (forall i, (i < k)%nat -> transport_failure (nth_run i) = true) ->
      nth_run k = Exits 0 (Object response) ->
      resp_result response = Some payload ->
      call_mcp_tool self tool_name parameters p
      = (mkResult true (Some payload) None None,
         mkProvider (behaviour p) (invocations p ++ repeat request (S k))))
  /\ ((forall i, Z.of_nat i <= max_retries self ->
         transport_failure (nth_run i) = true) ->
      call_mcp_tool self tool_name parameters p
      = (max_retries_exceeded tool_name,
         mkProvider (behaviour p)
           (invocations p
            ++ repeat request (Z.to_nat (max_retries self + 1)))))
  /\ (max_retries self = 2 ->
      forall response payload,
        transport_failure (nth_run 0%nat) = true ->
        transport_failure (nth_run 1%nat) = true ->
        nth_run 2%nat = Exits 0 (Object response) ->
        resp_result response = Some payload ->
        call_mcp_tool self tool_name parameters p
        = (mkResult true (Some payload) None None,
           mkProvider (behaviour p)
                      (invocations p ++ [request; request; request]))).
Proof.
  intros Hin Hmax request nth_run.
  assert (Hsuccess : forall (k : nat) response payload,
      Z.of_nat k <= max_retries self ->
      (forall i, (i < k)%nat -> transport_failure (nth_run i) = true) ->
      nth_run k = Exits 0 (Object response) ->
      resp_result response = Some payload ->
      call_mcp_tool self tool_name parameters p
      = (mkResult true (Some payload) None None,
         mkProvider (behaviour p) (invocations p ++ repeat request (S k)))).
  { intros k response payload Hk Hfail Hrun Hres.
    rewrite (call_mcp_tool_listed _ _ _ _ Hin). fold request.
    rewrite (attempt_loop_first_result self request _ p k
               (mkResult true (Some payload) None None)).
    - reflexivity.
    - rewrite range_length. lia.
    - intros i Hi. apply transport_failure_no_result. now apply Hfail.
    - fold (nth_run k). rewrite Hrun. simpl. unfold _process_mcp_response.
      now rewrite Hres. }
  split; [exact Hsuccess | split].
  - intros Hfail.
    rewrite (call_mcp_tool_listed _ _ _ _ Hin). fold request.
    rewrite attempt_loop_exhausted.
    + now rewrite range_length.
    + intros i Hi. rewrite range_length in Hi.
      apply transport_failure_no_result. apply Hfail. lia.
  - intros Hbudget response payload H0 H1 H2 Hres.
    apply (Hsuccess 2%nat response payload); try assumption; [lia|].
    intros [|[|i]] Hi; [assumption | assumption | lia].
Qed.

(** Two timeouts, then an answer. *)
Definition third_time_lucky (n : nat) (request : mcp_request) : run_outcome :=
  match n with
  | 0%nat | 1%nat => TimeoutExpired
  | _ => Exits 0 (Object (mkResponse (Some "{'value': []}") None))
  end.

Lemma call_mcp_tool_retries_witness :
  let p := mkProvider third_time_lucky [] in
  let request :=
    _create_mcp_request "list-calendar-events" (Some "{'top': 10}") in
  call_mcp_tool default_client "list-calendar-events" (Some "{'top': 10}") p
  = (mkResult true (Some "{'value': []}") None None,
     mkProvider third_time_lucky [request; request; request]).
Proof.
  intros p request.
  assert (Hin : "list-calendar-events" ∈ available_tools default_client)
    by (vm_compute; repeat constructor).
  assert (Hmax : 0 <= max_retries default_client) by (simpl; lia).
  exact (proj2 (proj2 (call_mcp_tool_retries default_client
                         "list-calendar-events" (Some "{'top': 10}") p
                         Hin Hmax))
           eq_refl (mkResponse (Some "{'value': []}") None) "{'value': []}"
           eq_refl eq_refl eq_refl eq_refl).
Defined.

End ToolBridge.

(** * Further properties of the code around the credential core *)

From Stdlib Require Import Sorted.

(** ** The rest of the tool bridge *)


Section ToolBridgeOutcomes.
Import Py MCPClient MCPClientChecks.
Local Open Scope string_scope.
Local Open Scope list_scope.
Local Open Scope Z_scope.

Definition invalid_tool (tool_name : string) : tool_result :=
  mkResult false None (Some "invalid_tool")
           (Some (tool_message tool_name "is not available")).

Definition tool_error (message : string) : tool_result :=
  mkResult false None (Some "tool_error") (Some message).

(** The error text reads as an authentication problem. *)
Definition auth_text (error_info : string) : bool :=
  contains "authentication" (lower error_info)
  || contains "login" (lower error_info).

(** The four error classes of a failed call. *)
Definition error_classes : list string :=
  [ "invalid_tool"; "authentication_required"; "tool_error";
    "max_retries_exceeded" ].

(** A result is never partially populated. *)
Definition well_formed (r : tool_result) : Prop :=
  if success r
  then is_Some (data r) /\ error r = None /\ error_message r = None
  else data r = None
       /\ (exists c, error r = Some c /\ In c error_classes)
       /\ is_Some (error_message r).

(** The first [k] runs from the current one give the loop nothing. *)
Definition fruitless (p : provider) (request : mcp_request) (k : nat) : Prop :=
  forall i, (i < k)%nat ->
    attempt_result
      (behaviour p (List.length (invocations p) + i)%nat request) = None.

(** The retry loop either runs to its end on fruitless runs, or stops
    at the first run that gives a result. *)
Lemma attempt_loop_cases self request attempts p :
  (fruitless p request (List.length attempts)
   /\ attempt_loop self request attempts p
      = (None, delivered request (List.length attempts) p))
  \/ (exists k result,
        (k < List.length attempts)%nat
        /\ fruitless p request k
        /\ attempt_result
             (behaviour p (List.length (invocations p) + k)%nat request)
           = Some result
        /\ attempt_loop self request attempts p
           = (Some result, delivered request (S k) p)).
Proof.
  assert (Hdec : forall n,
    fruitless p request n
    \/ exists k result, (k < n)%nat /\ fruitless p request k
         /\ attempt_result
              (behaviour p (List.length (invocations p) + k)%nat request)
            = Some result).
  { induction n as [|n IH].
    - left. intros i Hi. lia.
    - destruct IH as [Hall | (k & r & Hk & Hbefore & Hr)].
      + destruct (attempt_result
                    (behaviour p (List.length (invocations p) + n)%nat request))
          as [r|] eqn:Hn.
        * right. exists n, r. repeat split; [lia | assumption | assumption].
        * left. intros i Hi. destruct (decide (i = n)) as [->|Hne];
            [assumption | apply Hall; lia].
      + right. exists k, r. repeat split; [lia | assumption | assumption]. }
  destruct (Hdec (List.length attempts)) as [Hall | (k & r & Hk & Hbefore & Hr)].
  - left. split; [assumption|]. now apply attempt_loop_exhausted.
  - right. exists k, r. repeat split; try assumption.
    now apply attempt_loop_first_result.
Qed.

Lemma failure_well_formed c message :
  In c error_classes -> well_formed (mkResult false None (Some c) (Some message)).
Proof.
  intros Hc. unfold well_formed. simpl.
  split; [reflexivity | split; [now exists c | now exists message]].
Qed.

Lemma process_mcp_response_well_formed response result :
  _process_mcp_response response = Some result -> well_formed result.
Proof.
  unfold _process_mcp_response.
  destruct (resp_result response) as [payload|].
  - intros [= <-]. unfold well_formed. simpl.
    split; [now exists payload | split; reflexivity].
  - destruct (resp_error response) as [e|]; [|discriminate].
    destruct (_ || _); intros [= <-]; apply failure_well_formed;
      unfold error_classes; simpl; tauto.
Qed.

Lemma attempt_result_well_formed o result :
  attempt_result o = Some result -> well_formed result.
Proof.
  destruct o as [| |rc out]; simpl; try discriminate.
  destruct rc as [|rc|rc]; try discriminate.
  destruct out as [| |response]; try discriminate.
  apply process_mcp_response_well_formed.
Qed.

Lemma attempt_result_not_class o result c :
  attempt_result o = Some result ->
  error result = Some c -> c = "authentication_required" \/ c = "tool_error".
Proof.
  destruct o as [| |rc out]; simpl; try discriminate.
  destruct rc as [|rc|rc]; try discriminate.
  destruct out as [| |response]; try discriminate.
  unfold _process_mcp_response.
  destruct (resp_result response) as [payload|].
  - intros [= <-]. discriminate.
  - destruct (resp_error response) as [e|]; [|discriminate].
    destruct (_ || _); intros [= <-] [= <-]; tauto.
Qed.

Lemma call_mcp_tool_unlisted self tool_name parameters p :
  tool_name ∉ available_tools self ->
  call_mcp_tool self tool_name parameters p = (invalid_tool tool_name, p).
Proof.
  intros Hout. unfold call_mcp_tool.
  now rewrite (bool_decide_eq_false_2 _ Hout).
Qed.

(** X1. Every call gives a result that is never partially populated:
    a success has data and no error fields; a failure has no data, one
    of the four error classes and a message. *)
Theorem call_mcp_tool_well_formed self tool_name parameters p :
  well_formed (call_mcp_tool self tool_name parameters p).1.
Proof.
  destruct (decide (tool_name ∈ available_tools self)) as [Hin|Hout].
  - rewrite (call_mcp_tool_listed _ _ _ _ Hin).
    destruct (attempt_loop_cases self
                (_create_mcp_request tool_name parameters)
                (range (max_retries self + 1)) p)
      as [[_ ->] | (k & r & _ & _ & Hr & ->)]; simpl.
    + apply failure_well_formed. unfold error_classes. simpl. tauto.
    + now apply attempt_result_well_formed in Hr.
  - rewrite (call_mcp_tool_unlisted _ _ _ _ Hout).
    apply failure_well_formed. unfold error_classes. simpl. tauto.
Qed.

(** X2. Whatever the provider does, a call runs it at most
    [max_retries + 1] times, always on the one request envelope built
    from the tool name and the parameters, and only appends to the log
    of invocations. *)
Theorem call_mcp_tool_bounded self tool_name parameters p :
  exists n : nat,
    (n <= Z.to_nat (max_retries self + 1))%nat
    /\ (call_mcp_tool self tool_name parameters p).2
       = mkProvider (behaviour p)
           (invocations p
            ++ repeat (_create_mcp_request tool_name parameters) n).
Proof.
  destruct (decide (tool_name ∈ available_tools self)) as [Hin|Hout].
  - rewrite (call_mcp_tool_listed _ _ _ _ Hin).
    destruct (attempt_loop_cases self
                (_create_mcp_request tool_name parameters)
                (range (max_retries self + 1)) p)
      as [[_ ->] | (k & r & Hk & _ & _ & ->)]; simpl;
      rewrite range_length in *.
    + exists (Z.to_nat (max_retries self + 1)). split; [lia | reflexivity].
    + exists (S k). split; [lia | reflexivity].
  - rewrite (call_mcp_tool_unlisted _ _ _ _ Hout). exists 0%nat. simpl.
    rewrite app_nil_r. split; [lia | now destruct p].
Qed.

(** X3. The invalid_tool class is given exactly to the tool names
    outside the allow-list, and then the provider is never run. *)
Theorem call_mcp_tool_invalid_tool self tool_name parameters p :
  (error (call_mcp_tool self tool_name parameters p).1 = Some "invalid_tool"
   <-> tool_name ∉ available_tools self)
  /\ (tool_name ∉ available_tools self ->
      call_mcp_tool self tool_name parameters p = (invalid_tool tool_name, p)).
Proof.
  split; [split|]; [| | apply call_mcp_tool_unlisted].
  - intros Herr Hin. rewrite (call_mcp_tool_listed _ _ _ _ Hin) in Herr.
    destruct (attempt_loop_cases self
                (_create_mcp_request tool_name parameters)
                (range (max_retries self + 1)) p)
      as [[_ Hloop] | (k & r & _ & _ & Hr & Hloop)];
      rewrite Hloop in Herr; simpl in Herr.
    + discriminate.
    + destruct (attempt_result_not_class _ _ _ Hr Herr); discriminate.
  - intros Hout. now rewrite (call_mcp_tool_unlisted _ _ _ _ Hout).
Qed.

Lemma call_mcp_tool_invalid_tool_witness :
  let p := mkProvider (fun _ _ => TimeoutExpired) [] in
  call_mcp_tool default_client "drop-database" None p
  = (invalid_tool "drop-database", p).
Proof.
  intro p.
  apply (call_mcp_tool_invalid_tool default_client "drop-database" None p).
  vm_compute. intros H.
  repeat (apply elem_of_cons in H as [H|H]; [discriminate H|]).
  now apply elem_of_nil in H.
Defined.

(** X4. For an allow-listed tool, when the provider's response to
    the first run is an error (and carries no result) whose text does
    not read as an authentication problem, the call returns tool_error
    with the provider's text as its message, after exactly one run:
    a domain error is not retried. *)
Theorem call_mcp_tool_tool_error
  self tool_name parameters p response error_info :
  tool_name ∈ available_tools self ->
  0 <= max_retries self ->
  let request := _create_mcp_request tool_name parameters in
  behaviour p (List.length (invocations p)) request
  = Exits 0 (Object response) ->
  resp_result response = None ->
  resp_error response = Some error_info ->
  auth_text error_info = false ->
  call_mcp_tool self tool_name parameters p
  = (tool_error error_info,
     mkProvider (behaviour p) (invocations p ++ [request])).
Proof.
  intros Hin Hmax request Hrun Hres Herr Htext.
  rewrite (call_mcp_tool_listed _ _ _ _ Hin). fold request.
  rewrite (attempt_loop_first_result self request _ p 0 (tool_error error_info)).
  - reflexivity.
  - rewrite range_length. lia.
  - intros i Hi. lia.
  - rewrite Nat.add_0_r, Hrun. simpl. unfold _process_mcp_response.
    unfold auth_text in Htext. now rewrite Hres, Herr, Htext.
Qed.

Definition no_such_event : mcp_response :=
  mkResponse None (Some "{'code': -32602, 'message': 'Event not found'}").

Lemma call_mcp_tool_tool_error_witness :
  let p := mkProvider (fun _ _ => Exits 0 (Object no_such_event)) [] in
  call_mcp_tool default_client "get-calendar-event" (Some "{'id': 'e1'}") p
  = (tool_error "{'code': -32602, 'message': 'Event not found'}",
     mkProvider (behaviour p)
       [_create_mcp_request "get-calendar-event" (Some "{'id': 'e1'}")]).
Proof.
  intro p.
  assert (Hin : "get-calendar-event" ∈ available_tools default_client)
    by (vm_compute; repeat constructor).
  assert (Hmax : 0 <= max_retries default_client) by (simpl; lia).
  exact (call_mcp_tool_tool_error default_client "get-calendar-event"
           (Some "{'id': 'e1'}") p no_such_event
           "{'code': -32602, 'message': 'Event not found'}"
           Hin Hmax eq_refl eq_refl eq_refl eq_refl).
Defined.

(** X5. With a negative retry budget the loop has no round at all: for
    an allow-listed tool the provider is never run and the call reports
    max_retries_exceeded. *)
Theorem call_mcp_tool_negative_budget self tool_name parameters p :
  tool_name ∈ available_tools self ->
  max_retries self < 0 ->
  call_mcp_tool self tool_name parameters p
  = (max_retries_exceeded tool_name, p).
Proof.
  intros Hin Hneg. rewrite (call_mcp_tool_listed _ _ _ _ Hin).
  unfold range. replace (Z.to_nat (max_retries self + 1)) with 0%nat by lia.
  reflexivity.
Qed.

Lemma call_mcp_tool_negative_budget_witness :
  let self := mkClient default_tools 30 (-1) in
  let p := mkProvider (fun _ _ => Exits 0 (Object no_such_event)) [] in
  call_mcp_tool self "send-mail" None p = (max_retries_exceeded "send-mail", p).
Proof.
  intros self p.
  apply (call_mcp_tool_negative_budget self "send-mail" None p).
  - vm_compute. repeat constructor.
  - reflexivity.
Defined.

Lemma attempt_result_success o result :
  attempt_result o = Some result ->
  success result = true ->
  exists response payload,
    o = Exits 0 (Object response) /\ resp_result response = Some payload.
Proof.
  destruct o as [| |rc out]; simpl; try discriminate.
  destruct rc as [|rc|rc]; try discriminate.
  destruct out as [| |response]; try discriminate.
  unfold _process_mcp_response.
  destruct (resp_result response) as [payload|] eqn:Hres.
  - intros _ _. now exists response, payload.
  - destruct (resp_error response) as [e|]; [|discriminate].
    destruct (_ || _); intros [= <-]; discriminate.
Qed.

(** X6. [check_authentication] answers true exactly when, within the
    retry budget, some run of get-current-user answers with a result
    payload and every run before it gave nothing (a transport failure);
    a tool error, an authentication error or an exhausted budget all
    read as "not authenticated". *)
Theorem check_authentication_true_iff self p :
  "get-current-user" ∈ available_tools self ->
  let request := _create_mcp_request "get-current-user" None in
  (check_authentication self p).1 = true
  <-> exists (k : nat) response payload,
        Z.of_nat k <= max_retries self
        /\ fruitless p request k
        /\ behaviour p (List.length (invocations p) + k)%nat request
           = Exits 0 (Object response)
        /\ resp_result response = Some payload.
Proof.
  intros Hin request. unfold check_authentication.
  rewrite (call_mcp_tool_listed _ _ _ _ Hin). fold request.
  split.
  - destruct (attempt_loop_cases self request
                (range (max_retries self + 1)) p)
      as [[_ ->] | (k & r & Hk & Hbefore & Hr & ->)]; simpl.
    + discriminate.
    + intros Hs. rewrite range_length in Hk.
      destruct (attempt_result_success _ _ Hr Hs)
        as (response & payload & Hrun & Hres).
      exists k, response, payload. repeat split; try assumption. lia.
  - intros (k & response & payload & Hk & Hbefore & Hrun & Hres).
    rewrite (attempt_loop_first_result self request _ p k
               (mkResult true (Some payload) None None)).
    + reflexivity.
    + rewrite range_length. lia.
    + exact Hbefore.
    + rewrite Hrun. simpl. unfold _process_mcp_response. now rewrite Hres.
Qed.

Lemma check_authentication_true_iff_witness :
  let p := mkProvider third_time_lucky [] in
  (check_authentication default_client p).1 = true.
Proof.
  intro p.
  assert (Hin : "get-current-user" ∈ available_tools default_client)
    by (vm_compute; repeat constructor).
  apply (proj2 (check_authentication_true_iff default_client p Hin)).
  exists 2%nat, (mkResponse (Some "{'value': []}") None), "{'value': []}".
  repeat split.
  - simpl. lia.
  - intros [|[|i]] Hi; [reflexivity | reflexivity | lia].
Defined.

(** Python's [sub in s], spelled out. *)
Lemma prefix_iff (sub s : string) :
  String.prefix sub s = true <-> exists post, s = (sub ++ post)%string.
Proof.
  revert s. induction sub as [|c sub IH]; intros s; simpl.
  - split; [intros _; now exists s | now destruct s].
  - destruct s as [|d s]; simpl.
    + split; [discriminate | intros [post Hpost]; discriminate].
    + destruct (ascii_dec c d) as [->|Hne].
      * rewrite IH. split; intros [post Hpost]; exists post.
        -- now rewrite Hpost.
        -- now injection Hpost.
      * split; [discriminate | intros [post Hpost]].
        injection Hpost as Hd _. now symmetry in Hd.
Qed.

Lemma contains_iff (sub s : string) :
  contains sub s = true
  <-> exists pre post, s = (pre ++ sub ++ post)%string.
Proof.
  induction s as [|d s IH].
  - cbn [contains]. rewrite orb_false_r, prefix_iff. split.
    + intros [post Hpost]. now exists EmptyString, post.
    + intros (pre & post & H). destruct pre as [|c pre]; [|discriminate].
      now exists post.
  - cbn [contains]. rewrite orb_true_iff, prefix_iff, IH. split.
    + intros [[post Hpost] | (pre & post & H)].
      * now exists EmptyString, post.
      * exists (String d pre), post. simpl. now rewrite H.
    + intros (pre & post & H). destruct pre as [|c pre].
      * left. now exists post.
      * right. exists pre, post. simpl in H. now injection H.
Qed.

(** X7. A provider response is classified authentication_required
    exactly when it has no result and its error text, in lower case,
    has "authentication" or "login" somewhere inside it (so the test
    is case-insensitive and also fires inside longer words). *)
Theorem process_mcp_response_authentication_iff response :
  _process_mcp_response response = Some authentication_required
  <-> resp_result response = None
      /\ exists error_info pre post,
           resp_error response = Some error_info
           /\ (lower error_info = (pre ++ "authentication" ++ post)%string
               \/ lower error_info = (pre ++ "login" ++ post)%string).
Proof.
  unfold _process_mcp_response.
  destruct (resp_result response) as [payload|].
  { split; [discriminate | intros [H _]; discriminate]. }
  destruct (resp_error response) as [e|].
  2: { split; [discriminate | intros (_ & e & pre & post & H & _); discriminate]. }
  destruct (contains "authentication" (lower e) || contains "login" (lower e))
    eqn:Htext.
  - split; [intros _ | reflexivity]. split; [reflexivity|].
    apply orb_true_iff in Htext as [H|H];
      apply contains_iff in H as (pre & post & H);
      exists e, pre, post; (split; [reflexivity|]); tauto.
  - split; [discriminate|].
    intros (_ & e' & pre & post & [= <-] & H). exfalso.
    apply orb_false_iff in Htext as [H1 H2].
    destruct H as [H|H].
    + assert (contains "authentication" (lower e) = true)
        by (apply contains_iff; now exists pre, post).
      congruence.
    + assert (contains "login" (lower e) = true)
        by (apply contains_iff; now exists pre, post).
      congruence.
Qed.

End ToolBridgeOutcomes.

(** ** More on the availability search *)

Section AvailabilityOrder.
Import Py Datetime MsGraphClient.
Local Open Scope list_scope.
Local Open Scope Z_scope.

(** What [earliest_fit] promises pins the result down. *)
Lemma earliest_fit_unique busy duration window_end from r1 r2 :
  earliest_fit busy duration window_end from r1 ->
  earliest_fit busy duration window_end from r2 ->
  r1 = r2.
Proof.
  unfold earliest_fit.
  destruct r1 as [[a1 b1]|], r2 as [[a2 b2]|]; intros H1 H2.
  - destruct H1 as (k1 & -> & -> & Hle1 & Hfree1 & Hbefore1).
    destruct H2 as (k2 & -> & -> & Hle2 & Hfree2 & Hbefore2).
    destruct (Nat.lt_trichotomy k1 k2) as [Hlt | [-> | Hlt]].
    + destruct (Hbefore2 k1 Hlt) as [_ Hov]. congruence.
    + reflexivity.
    + destruct (Hbefore1 k2 Hlt) as [_ Hov]. congruence.
  - destruct H1 as (k1 & -> & -> & Hle1 & Hfree1 & _).
    specialize (H2 k1 Hle1). congruence.
  - destruct H2 as (k2 & -> & -> & Hle2 & Hfree2 & _).
    specialize (H1 k2 Hle2). congruence.
  - reflexivity.
Qed.

(** The search, by what it promises, over the intervals as the
    calendar lists them. *)
Lemma find_free_time_slot_fit events date duration_minutes pref from :
  window_start date pref = Returned from ->
  exists result,
    find_free_time_slot (Returned events) date duration_minutes pref
    = Returned result
    /\ earliest_fit (map busy_interval events)
         (timedelta_minutes duration_minutes) (date + hm 18 0) from result.
Proof.
  intros Hws. eexists. split.
  - apply (find_free_time_slot_scan _ _ _ _ _ Hws).
  - apply earliest_fit_ext with (busy := sort (map busy_interval events)).
    + intros s e. apply overlap_sort.
    + apply scan_earliest_fit.
Qed.

Lemma find_free_time_slot_is events date duration_minutes pref from result :
  window_start date pref = Returned from ->
  earliest_fit (map busy_interval events)
    (timedelta_minutes duration_minutes) (date + hm 18 0) from result ->
  find_free_time_slot (Returned events) date duration_minutes pref
  = Returned result.
Proof.
  intros Hws Hfit.
  destruct (find_free_time_slot_fit events date duration_minutes pref from Hws)
    as (r & -> & Hr).
  f_equal. eapply earliest_fit_unique; eassumption.
Qed.

Lemma candidate_ge from k : from <= candidate from k.
Proof.
  pose proof (candidate_mono from 0 k ltac:(lia)) as H.
  now rewrite candidate_0 in H.
Qed.

(** X8. On a day without events the search answers with the window
    start itself whenever the duration fits before 18:00 (08:00, or the
    preferred start time even when that is earlier than 08:00; a zero or
    negative duration fits too and gives a slot that ends at or before
    its start). Whatever the events, when the duration does not fit
    between the window start and 18:00 the answer is none. *)
Theorem find_free_time_slot_empty_day date duration_minutes pref from :
  window_start date pref = Returned from ->
  let duration := timedelta_minutes duration_minutes in
  let day_end := date + hm 18 0 in
  (from + duration <= day_end ->
   find_free_time_slot (Returned []) date duration_minutes pref
   = Returned (Some (from, from + duration)))
  /\ (forall events,
        day_end < from + duration ->
        find_free_time_slot (Returned events) date duration_minutes pref
        = Returned None).
Proof.
  intros Hws duration day_end. split.
  - intros Hfits. apply (find_free_time_slot_is _ _ _ _ _ _ Hws).
    exists 0%nat. rewrite candidate_0.
    repeat split; try assumption; try lia.
    all: intros; lia.
  - intros events Hlong. apply (find_free_time_slot_is _ _ _ _ _ _ Hws).
    intros k Hk. pose proof (candidate_ge from k).
    fold duration day_end in Hk. lia.
Qed.

Lemma find_free_time_slot_empty_day_witness :
  find_free_time_slot (Returned []) 0 45 (Some (mkHHMM 6 30))
  = Returned (Some (hm 6 30, hm 7 15))
  /\ find_free_time_slot (Returned []) 0 45 (Some (mkHHMM 17 30))
     = Returned None.
Proof.
  split.
  - apply (find_free_time_slot_empty_day 0 45 (Some (mkHHMM 6 30)) (hm 6 30));
      reflexivity || (vm_compute; discriminate).
  - apply (find_free_time_slot_empty_day 0 45 (Some (mkHHMM 17 30)) (hm 17 30));
      reflexivity.
Defined.

(** X9. When one event covers the whole window (it starts at or before
    the window start and ends at or after 18:00) and the duration is
    positive, the search answers none. *)
Theorem find_free_time_slot_day_covered
  events ev date duration_minutes pref from :
  window_start date pref = Returned from ->
  In ev events ->
  instant (ensure_aware (ev_start ev)) <= from ->
  date + hm 18 0 <= instant (ensure_aware (ev_end ev)) ->
  0 < duration_minutes ->
  find_free_time_slot (Returned events) date duration_minutes pref
  = Returned None.
Proof.
  intros Hws Hin Hstart Hend Hpos.
  apply (find_free_time_slot_is _ _ _ _ _ _ Hws).
  intros k Hk. apply overlap_iff. exists (busy_interval ev).
  split; [now apply in_map|].
  pose proof (candidate_ge from k). unfold busy_interval. simpl.
  unfold timedelta_minutes in *. lia.
Qed.

Lemma find_free_time_slot_day_covered_witness :
  find_free_time_slot
    (Returned [mkEvent (naive (hm 7 0)) (utc (hm 19 0))]) 0 15 None
  = Returned None.
Proof.
  apply (find_free_time_slot_day_covered
           [mkEvent (naive (hm 7 0)) (utc (hm 19 0))]
           (mkEvent (naive (hm 7 0)) (utc (hm 19 0))) 0 15 None (hm 8 0)).
  - reflexivity.
  - now left.
  - vm_compute. discriminate.
  - vm_compute. discriminate.
  - reflexivity.
Defined.

Lemma overlap_incl busy busy' s e :
  (forall b, In b busy -> In b busy') ->
  overlap busy s e = true -> overlap busy' s e = true.
Proof.
  intros Hincl. rewrite !overlap_iff.
  intros (b & Hin & Hb). exists b. split; [now apply Hincl | assumption].
Qed.

Lemma overlap_same_members busy busy' s e :
  (forall b, In b busy <-> In b busy') ->
  overlap busy s e = overlap busy' s e.
Proof.
  intros Hsame.
  destruct (overlap busy s e) eqn:H1, (overlap busy' s e) eqn:H2;
    try reflexivity.
  - apply (overlap_incl busy busy') in H1; [congruence|]. apply Hsame.
  - apply (overlap_incl busy' busy) in H2; [congruence|]. apply Hsame.
Qed.

(** X10. The answer does not depend on the order in which the calendar
    lists the events: for two lists with the same events in any order
    the search gives the same result. *)
Theorem find_free_time_slot_any_order
  events events' date duration_minutes pref :
  Permutation events events' ->
  find_free_time_slot (Returned events) date duration_minutes pref
  = find_free_time_slot (Returned events') date duration_minutes pref.
Proof.
  intros Hperm.
  destruct (window_start date pref) as [from|e] eqn:Hws.
  - destruct (find_free_time_slot_fit events' date duration_minutes pref from
                Hws) as (r & -> & Hr).
    apply (find_free_time_slot_is _ _ _ _ _ _ Hws).
    apply earliest_fit_ext with (busy := map busy_interval events');
      [|assumption].
    intros s e. apply overlap_same_members. intros b.
    rewrite !in_map_iff.
    split; intros (ev & Hev & Hin); exists ev; (split; [assumption|]).
    + apply (Permutation_in _ (Permutation_sym Hperm) Hin).
    + apply (Permutation_in _ Hperm Hin).
  - now rewrite !(find_free_time_slot_bad_time _ _ _ _ _ Hws).
Qed.

Lemma find_free_time_slot_any_order_witness :
  find_free_time_slot
    (Returned [mkEvent (utc (hm 8 0)) (utc (hm 9 0));
               mkEvent (utc (hm 9 0)) (utc (hm 9 20))]) 0 30 None
  = find_free_time_slot
      (Returned [mkEvent (utc (hm 9 0)) (utc (hm 9 20));
                 mkEvent (utc (hm 8 0)) (utc (hm 9 0))]) 0 30 None.
Proof.
  apply find_free_time_slot_any_order. apply perm_swap.
Defined.

(** X11. Taking events away never makes the slot later: if the search
    finds a slot for a calendar, then for any calendar whose events are
    among those it finds a slot too, starting no later. *)
Theorem find_free_time_slot_fewer_events
  events events' date duration_minutes pref slot_start' slot_end' :
  (forall ev, In ev events -> In ev events') ->
  find_free_time_slot (Returned events') date duration_minutes pref
  = Returned (Some (slot_start', slot_end')) ->
  exists slot_start,
    find_free_time_slot (Returned events) date duration_minutes pref
    = Returned (Some (slot_start,
                      slot_start + timedelta_minutes duration_minutes))
    /\ slot_start <= slot_start'.
Proof.
  intros Hincl Hfound.
  destruct (window_start date pref) as [from|e] eqn:Hws.
  2: { rewrite (find_free_time_slot_bad_time _ _ _ _ _ Hws) in Hfound.
       discriminate. }
  destruct (find_free_time_slot_fit events' date duration_minutes pref from Hws)
    as (r' & Hr' & Hfit').
  rewrite Hr' in Hfound. injection Hfound as ->.
  destruct Hfit' as (k' & -> & -> & Hle' & Hfree' & _).
  assert (Hfree : overlap (map busy_interval events) (candidate from k')
                    (candidate from k' + timedelta_minutes duration_minutes)
                  = false).
  { destruct (overlap (map busy_interval events) _ _) eqn:Hov; [|reflexivity].
    apply (overlap_incl _ (map busy_interval events')) in Hov; [congruence|].
    intros b. rewrite !in_map_iff.
    intros (ev & Hev & Hin). exists ev. split; [assumption | now apply Hincl]. }
  destruct (find_free_time_slot_fit events date duration_minutes pref from Hws)
    as ([[a b]|] & Hr & Hfit).
  - destruct Hfit as (k & -> & -> & Hle & Hfr & Hbefore).
    exists (candidate from k). split; [assumption|].
    destruct (Nat.le_gt_cases k k') as [Hkk | Hkk].
    + now apply candidate_mono.
    + destruct (Hbefore k' Hkk) as [_ Hov]. congruence.
  - specialize (Hfit k' Hle'). congruence.
Qed.

Lemma find_free_time_slot_fewer_events_witness :
  exists slot_start,
    find_free_time_slot (Returned []) 0 30 None
    = Returned (Some (slot_start, slot_start + timedelta_minutes 30))
    /\ slot_start <= hm 9 0.
Proof.
  apply (find_free_time_slot_fewer_events []
           [mkEvent (utc (hm 8 0)) (utc (hm 9 0))] 0 30 None
           (hm 9 0) (hm 9 30)).
  - intros ev [].
  - reflexivity.
Defined.

(** The order of [busy_times.sort()]: by start, then by end. *)
Definition tuple_order (a b : Z * Z) : Prop :=
  a.1 < b.1 \/ (a.1 = b.1 /\ a.2 <= b.2).

Lemma tuple_le_order a b : tuple_le a b = true <-> tuple_order a b.
Proof.
  unfold tuple_le, tuple_order.
  rewrite orb_true_iff, andb_true_iff, Z.ltb_lt, Z.eqb_eq, Z.leb_le.
  tauto.
Qed.

Lemma tuple_order_total a b : tuple_le a b = false -> tuple_order b a.
Proof.
  unfold tuple_le, tuple_order. intros H.
  apply orb_false_iff in H as [H1 H2]. apply Z.ltb_ge in H1.
  apply andb_false_iff in H2 as [H2|H2];
    [apply Z.eqb_neq in H2 | apply Z.leb_gt in H2]; lia.
Qed.

Lemma tuple_order_trans a b c :
  tuple_order a b -> tuple_order b c -> tuple_order a c.
Proof. unfold tuple_order. lia. Qed.

Lemma insert_sorted_perm x l : Permutation (insert_sorted x l) (x :: l).
Proof.
  induction l as [|y l IH]; simpl; [reflexivity|].
  destruct (tuple_le x y); [reflexivity|].
  rewrite IH. apply perm_swap.
Qed.

Lemma insert_sorted_sorted x l :
  StronglySorted tuple_order l ->
  StronglySorted tuple_order (insert_sorted x l).
Proof.
  induction 1 as [|y l Hsorted IH Hy]; simpl.
  - constructor; constructor.
  - destruct (tuple_le x y) eqn:Hxy.
    + apply tuple_le_order in Hxy.
      constructor; [now constructor|]. constructor; [assumption|].
      eapply Forall_impl; [exact Hy|].
      intros z Hz. now apply (tuple_order_trans x y z).
    + apply tuple_order_total in Hxy. constructor; [assumption|].
      apply (Permutation_Forall (Permutation_sym (insert_sorted_perm x l))).
      now constructor.
Qed.

(** X12. The busy intervals the scan reads are the calendar's intervals
    put in ascending order of start (ties by end): nothing is lost or
    added by the sort. *)
Theorem busy_times_sorted (events : list cal_event) :
  let busy_times := sort (map busy_interval events) in
  StronglySorted tuple_order busy_times
  /\ Permutation busy_times (map busy_interval events).
Proof.
  cbv zeta. unfold sort.
  induction (map busy_interval events) as [|b l [IHs IHp]]; simpl.
  - split; constructor.
  - split.
    + now apply insert_sorted_sorted.
    + rewrite insert_sorted_perm. now constructor.
Qed.

End AvailabilityOrder.

(** ** More on the token lifecycle *)

Section TokenLifecycleEffects.
Import Py Datetime World MsGraphClient.
Local Open Scope string_scope.
Local Open Scope list_scope.
Local Open Scope Z_scope.

(** The three ways a call can go. *)
Lemma get_valid_access_token_cases user_id w :
  get_valid_access_token user_id w = (Returned None, log (StoreGet user_id) w)
  \/ (exists it expires_at,
        table w !! user_id = Some it
        /\ ms_token_expires_at it = Some expires_at
        /\ clock w <= expires_at
        /\ get_valid_access_token user_id w
           = (Returned (Some (ms_access_token it)), log (StoreGet user_id) w))
  \/ (exists it,
        table w !! user_id = Some it
        /\ stale it (clock w)
        /\ get_valid_access_token user_id w
           = refresh_and_save_tokens user_id (ms_refresh_token it)
               (log (StoreGet user_id) w)).
Proof.
  destruct (faulty GetItem w) eqn:Hf.
  { left. unfold get_valid_access_token, bind.
    now rewrite (get_tokens_for_user_fault _ _ Hf). }
  destruct (table w !! user_id) as [it|] eqn:Hit.
  2: { left. unfold get_valid_access_token, bind.
       now rewrite (get_tokens_for_user_ok _ _ Hf), Hit. }
  destruct (ms_token_expires_at it) as [e|] eqn:He.
  - destruct (Z.lt_ge_cases e (clock w)) as [Hlt|Hge].
    + right; right. exists it. repeat split; [|
        apply get_valid_access_token_stale; try assumption];
        unfold stale; now rewrite He.
    + right; left. exists it, e. repeat split; try assumption.
      unfold get_valid_access_token, bind.
      rewrite (get_tokens_for_user_ok _ _ Hf), Hit, He.
      unfold utcnow. simpl.
      now rewrite (proj2 (Z.ltb_ge e (clock w))) by lia.
  - right; right. exists it. repeat split; [|
      apply get_valid_access_token_stale; try assumption];
      unfold stale; now rewrite He.
Qed.

(** What a refresh leaves in the trace after its POST. *)
Lemma refresh_trace user_id rt w :
  let r := refresh_and_save_tokens user_id rt w in
  exists tail,
    trace r.2 = trace w ++ NetPost (RefreshGrant rt) :: tail
    /\ (tail = [] \/ tail = [StoreDelete user_id]
        \/ tail = [StoreUpdate user_id]).
Proof.
  intro r. unfold r.
  destruct (reply_to (RefreshGrant rt) w) as [| |body] eqn:Hr.
  - rewrite (refresh_post_fails _ _ _ Hr). exists []. now split; [|left].
  - rewrite (refresh_body_not_json _ _ _ Hr). exists []. now split; [|left].
  - destruct (resp_error body) as [err|] eqn:He.
    + destruct (contains "invalid_grant"
                  (default "" (resp_error_description body))) eqn:Hd.
      * rewrite (refresh_invalid_grant _ _ _ _ _ Hr He Hd).
        unfold bind, table_delete_item.
        exists [StoreDelete user_id].
        destruct (faulty DeleteItem _); simpl;
          (split; [now rewrite <- app_assoc | tauto]).
      * rewrite (refresh_other_error _ _ _ _ _ Hr He Hd).
        exists []. now split; [|left].
    + destruct (resp_access_token body) as [a|] eqn:Ha.
      * rewrite (refresh_success _ _ _ _ _ Hr He Ha).
        unfold bind, table_update_item.
        exists [StoreUpdate user_id].
        destruct (faulty UpdateItem _); simpl;
          (split; [now rewrite <- app_assoc | tauto]).
      * rewrite (refresh_no_access_token _ _ _ _ Hr He Ha).
        exists []. now split; [|left].
Qed.

(** X13. Whatever the store and the issuer do, one call has this
    shape: first one store lookup; then either nothing more, or one
    POST of the stored refresh token, followed by at most one write,
    which is a delete or an update of this user's record. There is never
    a second POST, a write without a POST, or a write to another key. *)
Theorem get_valid_access_token_effects user_id w :
  exists tail,
    trace (get_valid_access_token user_id w).2
    = trace w ++ StoreGet user_id :: tail
    /\ (tail = []
        \/ exists it,
             table w !! user_id = Some it
             /\ let post := NetPost (RefreshGrant (ms_refresh_token it)) in
                tail = [post]
                \/ tail = [post; StoreDelete user_id]
                \/ tail = [post; StoreUpdate user_id]).
Proof.
  destruct (get_valid_access_token_cases user_id w)
    as [-> | [(it & e & _ & _ & _ & ->) | (it & Hit & _ & ->)]].
  - exists []. split; [reflexivity | now left].
  - exists []. split; [reflexivity | now left].
  - destruct (refresh_trace user_id (ms_refresh_token it)
                (log (StoreGet user_id) w)) as (tail & Htr & Htail).
    exists (NetPost (RefreshGrant (ms_refresh_token it)) :: tail).
    split.
    + rewrite Htr. simpl. now rewrite <- app_assoc.
    + right. exists it. split; [assumption|]. cbv zeta.
      destruct Htail as [-> | [-> | ->]]; tauto.
Qed.

(** X14. A call for one user never changes the record of another
    user, whatever the store and the issuer do. *)
Theorem get_valid_access_token_other_users user_id other w :
  other <> user_id ->
  table (get_valid_access_token user_id w).2 !! other = table w !! other.
Proof.
  intros Hne.
  destruct (get_valid_access_token_cases user_id w)
    as [-> | [(it & e & _ & _ & _ & ->) | (it & _ & _ & ->)]];
    try reflexivity.
  destruct (refresh_table user_id (ms_refresh_token it)
              (log (StoreGet user_id) w)) as [-> | [-> | (body & a & _ & ->)]].
  - reflexivity.
  - simpl. now rewrite lookup_delete_ne by congruence.
  - simpl. now rewrite lookup_insert_ne by congruence.
Qed.

Lemma get_valid_access_token_other_users_witness :
  let w := sample_world sample_table 6000000000 (Json token_revoked) in
  table (get_valid_access_token "U-alice" w).2 !! "U-bob" = Some bob.
Proof.
  intro w.
  apply (get_valid_access_token_other_users "U-alice" "U-bob" w).
  discriminate.
Defined.

(** X15. A record with an expiry is refreshed exactly when the expiry
    is strictly before the current time: at the instant of expiry itself
    the stored token is still handed out, with no POST. *)
Theorem get_valid_access_token_refresh_iff_expired user_id w it expires_at :
  faulty GetItem w = false ->
  table w !! user_id = Some it ->
  ms_token_expires_at it = Some expires_at ->
  (net_calls (get_valid_access_token user_id w).2 = net_calls w
   <-> clock w <= expires_at)
  /\ (clock w = expires_at ->
      get_valid_access_token user_id w
      = (Returned (Some (ms_access_token it)), log (StoreGet user_id) w)).
Proof.
  intros Hok Hit He.
  assert (Hhot : clock w <= expires_at ->
            get_valid_access_token user_id w
            = (Returned (Some (ms_access_token it)), log (StoreGet user_id) w)).
  { intros Hle. unfold get_valid_access_token, bind.
    rewrite (get_tokens_for_user_ok _ _ Hok), Hit, He.
    unfold utcnow. simpl.
    now rewrite (proj2 (Z.ltb_ge expires_at (clock w))) by lia. }
  split; [split|].
  - intros Hnet. destruct (Z.lt_ge_cases expires_at (clock w)) as [Hlt|Hge];
      [exfalso | assumption].
    rewrite (get_valid_access_token_stale _ _ _ Hok Hit) in Hnet
      by (unfold stale; now rewrite He).
    rewrite refresh_one_exchange in Hnet.
    destruct (lookup_is_silent user_id w) as (Hsil & _). rewrite Hsil in Hnet.
    apply (f_equal (@List.length effect)) in Hnet.
    rewrite length_app in Hnet. simpl in Hnet. lia.
  - intros Hle. rewrite (Hhot Hle). apply lookup_is_silent.
  - intros Heq. apply Hhot. lia.
Qed.

Lemma get_valid_access_token_refresh_iff_expired_witness :
  let w := sample_world sample_table 5000000000 PostFails in
  get_valid_access_token "U-alice" w
  = (Returned (Some "at-1"), log (StoreGet "U-alice") w).
Proof.
  intro w.
  apply (get_valid_access_token_refresh_iff_expired "U-alice" w alice
           5000000000); reflexivity.
Defined.

(** The exceptions a call can end in. *)
Definition refresh_exceptions : list exn :=
  [ConnectionError; JSONDecodeError; KeyError "access_token"; ClientError].

Lemma refresh_raises user_id rt w e :
  (refresh_and_save_tokens user_id rt w).1 = Raised e ->
  table (refresh_and_save_tokens user_id rt w).2 = table w
  /\ In e refresh_exceptions.
Proof.
  unfold refresh_exceptions.
  destruct (reply_to (RefreshGrant rt) w) as [| |body] eqn:Hr.
  - rewrite (refresh_post_fails _ _ _ Hr). simpl. intros [= <-]. tauto.
  - rewrite (refresh_body_not_json _ _ _ Hr). simpl. intros [= <-]. tauto.
  - destruct (resp_error body) as [err|] eqn:He.
    + destruct (contains "invalid_grant"
                  (default "" (resp_error_description body))) eqn:Hd.
      * rewrite (refresh_invalid_grant _ _ _ _ _ Hr He Hd).
        unfold bind, table_delete_item.
        destruct (faulty DeleteItem _); simpl; [|discriminate].
        intros [= <-]. tauto.
      * rewrite (refresh_other_error _ _ _ _ _ Hr He Hd). discriminate.
    + destruct (resp_access_token body) as [a|] eqn:Ha.
      * rewrite (refresh_success _ _ _ _ _ Hr He Ha).
        unfold bind, table_update_item.
        destruct (faulty UpdateItem _); simpl; [|discriminate].
        intros [= <-]. tauto.
      * rewrite (refresh_no_access_token _ _ _ _ Hr He Ha). simpl.
        intros [= <-]. tauto.
Qed.

(** X16. When a call ends in an exception, the table is exactly as it
    was before the call: an exception never leaves a half-written or
    deleted record. The exception is one of: the POST failed, the body
    was not JSON, the body had no access_token, or a store write
    failed. *)
Theorem get_valid_access_token_raises user_id w e :
  (get_valid_access_token user_id w).1 = Raised e ->
  table (get_valid_access_token user_id w).2 = table w
  /\ In e refresh_exceptions.
Proof.
  destruct (get_valid_access_token_cases user_id w)
    as [-> | [(it & x & _ & _ & _ & ->) | (it & _ & _ & ->)]];
    try discriminate.
  intros Hraised.
  now destruct (refresh_raises _ _ _ _ Hraised).
Qed.

(** A store whose updates fail. *)
Definition update_fails (w : world) : world :=
  mkWorld (table w) (clock w) (latency w) (issuer w)
          (fun _ op => match op with UpdateItem => true | _ => false end)
          (trace w).

Lemma get_valid_access_token_raises_witness :
  let w := update_fails (sample_world sample_table 6000000000 (Json rotated)) in
  table (get_valid_access_token "U-alice" w).2 = sample_table
  /\ In ClientError refresh_exceptions.
Proof.
  intro w.
  apply (get_valid_access_token_raises "U-alice" w ClientError).
  reflexivity.
Defined.

(** X17. After a successful refresh, what the next call does depends
    on the lifetime the issuer reported. With expires_in of at least 300
    seconds the record just written is valid, and a call at that moment
    hands out the new access token with no POST. With expires_in below
    300 the record is written already expired, so the next call
    refreshes again, presenting the refresh token the first refresh
    saved (the issuer's new one, or the old one when it sent none). *)
Theorem get_valid_access_token_after_refresh
  user_id w it body new_access_token :
  faulty GetItem w = false ->
  table w !! user_id = Some it ->
  stale it (clock w) ->
  let g := RefreshGrant (ms_refresh_token it) in
  let w1 := log (StoreGet user_id) w in
  let w2 := after_exchange g w1 in
  reply_to g w1 = Json body ->
  resp_error body = None ->
  resp_access_token body = Some new_access_token ->
  faulty UpdateItem w2 = false ->
  let w' := (get_valid_access_token user_id w).2 in
  faulty GetItem w' = false ->
  let expires_in := default 3600 (resp_expires_in body) in
  let saved := default (ms_refresh_token it) (resp_refresh_token body) in
  (300 <= expires_in ->
   get_valid_access_token user_id w'
   = (Returned (Some new_access_token), log (StoreGet user_id) w'))
  /\ (expires_in < 300 ->
      net_calls (get_valid_access_token user_id w').2
      = net_calls w' ++ [NetPost (RefreshGrant saved)]).
Proof.
  intros Hok Hit Hstale g w1 w2 Hr He Ha Hupd w' Hok' expires_in saved.
  set (expires_at := clock w2 + timedelta_seconds (expires_in - 300)).
  set (new_item := mkItem new_access_token saved (Some expires_at)).
  assert (Hw' : w' = log (StoreUpdate user_id)
                       (set_table (<[user_id := new_item]> (table w2)) w2)).
  { unfold w'.
    rewrite (get_valid_access_token_stale _ _ _ Hok Hit Hstale).
    rewrite (refresh_success _ _ _ _ _ Hr He Ha).
    unfold bind, table_update_item. fold g w1 w2. now rewrite Hupd. }
  assert (Hit' : table w' !! user_id = Some new_item).
  { rewrite Hw'. simpl. apply lookup_insert_eq. }
  assert (Hclock : clock w' = clock w2) by now rewrite Hw'.
  split; intros Hlife.
  - unfold get_valid_access_token, bind.
    rewrite (get_tokens_for_user_ok _ _ Hok'), Hit'. simpl.
    unfold utcnow. simpl. rewrite Hclock.
    replace (expires_at <? clock w2) with false; [reflexivity|].
    symmetry. apply Z.ltb_ge. unfold expires_at, timedelta_seconds. lia.
  - rewrite (get_valid_access_token_stale _ _ new_item Hok' Hit').
    + rewrite refresh_one_exchange.
      now destruct (lookup_is_silent user_id w') as (-> & _).
    + unfold stale. simpl. rewrite Hclock.
      unfold expires_at, timedelta_seconds. lia.
Qed.

Definition short_lived : token_response :=
  mkTokenResponse None None (Some "at-3") (Some "rt-3") (Some 120).

Lemma get_valid_access_token_after_refresh_witness :
  let w := sample_world sample_table 6000000000 (Json short_lived) in
  let w' := (get_valid_access_token "U-alice" w).2 in
  net_calls (get_valid_access_token "U-alice" w').2
  = net_calls w' ++ [NetPost (RefreshGrant "rt-3")].
Proof.
  intros w w'.
  refine (proj2 (get_valid_access_token_after_refresh "U-alice" w alice
                   short_lived "at-3"
                   eq_refl eq_refl eq_refl eq_refl eq_refl eq_refl eq_refl
                   eq_refl) _).
  reflexivity.
Defined.

End TokenLifecycleEffects.

(** ** More on the authorization callback *)

Section OAuthRoutes.
Import Py Datetime World MsGraphClient OAuthHandler.
Local Open Scope string_scope.
Local Open Scope list_scope.
Local Open Scope Z_scope.

(** Follows [lambda_handler] down each of its paths. *)
Ltac handler_paths ev w :=
  unfold lambda_handler;
  destruct (truthy (domainName ev)) eqn:Hdomain; simpl;
  [ destruct (bool_decide (rawPath ev = Some "/connect_microsoft")) eqn:Hconnect;
    [ destruct (truthy (query_user_id ev)) eqn:Huser; simpl
    | destruct (bool_decide (rawPath ev = Some "/oauth_microsoft_redirect"))
        eqn:Hcallback;
      [ destruct (truthy (query_code ev)) eqn:Hcode; simpl;
        [ destruct (truthy (query_state ev)) eqn:Hstate; simpl;
          [ unfold bind, post_token;
            destruct (reply_to _ w) as [| |body] eqn:Hreply;
            [ | | destruct (resp_error body) as [err|] eqn:Herr;
                  [ | destruct (resp_access_token body) as [a|] eqn:Ha;
                      [ destruct (resp_refresh_token body) as [rt|] eqn:Hrt;
                        [ unfold table_put_item;
                          destruct (faulty PutItem _) eqn:Hput | ]
                      | ] ] ]
          | ]
        | ]
      | ] ]
  | ].

Lemma truthy_Some o : truthy o = true -> exists s, o = Some s.
Proof. destruct o as [s|]; [now exists s | discriminate]. Qed.

(** X18. The handler creates a record only when it answers 200, and
    then the record holds exactly the two tokens the issuer sent, filed
    under the user id that came back in [state]. On every other outcome
    (400, 404, 500, the 302 redirect, or an exception) the table is
    as it was: a failed authorization leaves no partial record. *)
Theorem lambda_handler_writes_iff_200 (ev : OAuthHandler.event) (w : world) :
  let r := lambda_handler ev w in
  (r.1 = Returned (Response 200 success_page)
   /\ exists user_id code domain body access_token refresh_token,
        query_state ev = Some user_id
        /\ query_code ev = Some code
        /\ domainName ev = Some domain
        /\ reply_to (CodeGrant code (redirect_uri_of domain)) w = Json body
        /\ resp_access_token body = Some access_token
        /\ resp_refresh_token body = Some refresh_token
        /\ table r.2
           = <[user_id := mkItem access_token refresh_token None]> (table w))
  \/ ((forall body, r.1 <> Returned (Response 200 body))
      /\ table r.2 = table w).
Proof.
  cbv zeta. handler_paths ev w;
    try (right; split; [intros ? ?; discriminate | reflexivity]).
  left. split; [reflexivity|].
  apply truthy_Some in Hdomain as [domain Hd], Hcode as [code Hc],
    Hstate as [user_id Hs].
  rewrite Hd, Hc, Hs in *. simpl in *.
  exists user_id, code, domain, body, a, rt. repeat split; assumption.
Qed.

(** What the handler adds to the trace. *)
Lemma lambda_handler_trace (ev : OAuthHandler.event) (w : world) :
  let r := lambda_handler ev w in
  r.2 = w
  \/ exists domain code user_id tail,
       rawPath ev = Some "/oauth_microsoft_redirect"
       /\ domainName ev = Some domain
       /\ query_code ev = Some code
       /\ query_state ev = Some user_id
       /\ trace r.2
          = trace w ++ NetPost (CodeGrant code (redirect_uri_of domain)) :: tail
       /\ (tail = [] \/ tail = [StorePut user_id]).
Proof.
  cbv zeta. handler_paths ev w; try (now left).
  all: right.
  all: apply bool_decide_eq_true_1 in Hcallback.
  all: apply truthy_Some in Hdomain as [domain Hd], Hcode as [code Hc],
         Hstate as [user_id Hs].
  all: rewrite Hd, Hc, Hs in *; simpl in *.
  all: exists domain, code, user_id.
  all: try (exists []; repeat split; try assumption; now left).
  all: exists [StorePut user_id]; repeat split; try assumption;
         [now rewrite <- app_assoc | now right].
Qed.

(** X19. Only a callback that carries both a code and a state reaches
    the token endpoint: it makes one POST, of that code with the
    redirect URI of the request's own domain, followed by at most one
    [put_item] for the state's user id. The login start, a request with
    a missing parameter or domain, and an unknown path change nothing at
    all. *)
Theorem lambda_handler_effects (ev : OAuthHandler.event) (w : world) :
  let r := lambda_handler ev w in
  r.2 = w
  \/ exists domain code user_id tail,
       rawPath ev = Some "/oauth_microsoft_redirect"
       /\ domainName ev = Some domain
       /\ query_code ev = Some code
       /\ query_state ev = Some user_id
       /\ trace r.2
          = trace w ++ NetPost (CodeGrant code (redirect_uri_of domain)) :: tail
       /\ (tail = [] \/ tail = [StorePut user_id]).
Proof. apply lambda_handler_trace. Qed.

(** X20. The login start and the callback agree on the redirect URI:
    the URI the user is sent to Microsoft with is the one the callback
    for the same domain presents with the code, and the [state] sent
    along is the user id of the request. *)
Theorem lambda_handler_same_redirect_uri
  (ev1 ev2 : OAuthHandler.event) (w1 w2 : world) uri state code uri2 tail :
  (lambda_handler ev1 w1).1 = Returned (Redirect 302 uri state) ->
  domainName ev2 = domainName ev1 ->
  trace (lambda_handler ev2 w2).2
  = trace w2 ++ NetPost (CodeGrant code uri2) :: tail ->
  uri2 = uri /\ query_user_id ev1 = Some state.
Proof.
  intros Hstart Hsame Hcallback2.
  assert (H1 : exists domain, domainName ev1 = Some domain
                 /\ uri = redirect_uri_of domain
                 /\ query_user_id ev1 = Some state).
  { revert Hstart. handler_paths ev1 w1; try discriminate.
    apply truthy_Some in Hdomain as [domain Hd], Huser as [u Hu].
    rewrite Hd, Hu. simpl. intros [= <- <-]. now exists domain. }
  destruct H1 as (domain & Hd1 & -> & Hstate1).
  split; [|assumption].
  destruct (lambda_handler_trace ev2 w2)
    as [Hquiet | (domain2 & code2 & user2 & tail2 & _ & Hd2 & _ & _ & Htr & _)].
  - rewrite Hquiet in Hcallback2.
    apply (f_equal (@List.length effect)) in Hcallback2.
    rewrite length_app in Hcallback2. simpl in Hcallback2. lia.
  - rewrite Htr in Hcallback2. apply app_inv_head in Hcallback2.
    injection Hcallback2 as _ Huri _. congruence.
Qed.

Definition dave_connect : OAuthHandler.event :=
  OAuthHandler.mkEvent (Some "/connect_microsoft")
    (Some "abc123.execute-api.eu-west-2.amazonaws.com")
    (Some "U-dave") None None.

Lemma lambda_handler_same_redirect_uri_witness :
  let w := sample_world sample_table 6000000000 (Json rotated) in
  redirect_uri_of "abc123.execute-api.eu-west-2.amazonaws.com"
  = "https://abc123.execute-api.eu-west-2.amazonaws.com/oauth_microsoft_redirect"
  /\ query_user_id dave_connect = Some "U-dave".
Proof.
  intro w.
  apply (lambda_handler_same_redirect_uri dave_connect dave_callback w w
           "https://abc123.execute-api.eu-west-2.amazonaws.com/oauth_microsoft_redirect"
           "U-dave" "0.AAAA-code"
           (redirect_uri_of "abc123.execute-api.eu-west-2.amazonaws.com")
           [StorePut "U-dave"]); reflexivity.
Defined.

End OAuthRoutes.


(** ** Looking an event up *)

Section FindEvent.
Import Py MsGraphClientEvents.
Local Open Scope string_scope.
Local Open Scope list_scope.

(** The event passes the time test or the attendee test. *)
Definition event_matches (time attendee : option string) (event : listed_event)
  : bool :=
  (truthy time && contains (default "" time) (start_hhmm event))
  || (truthy attendee
      && contains (lower (default "" attendee))
                  (lower (default "" (subject event)))).

Lemma find_event_cons event rest time attendee :
  find_event (event :: rest) time attendee
  = if event_matches time attendee event then Some event
    else find_event rest time attendee.
Proof.
  unfold event_matches. simpl.
  destruct (truthy time && _); [reflexivity|].
  now destruct (truthy attendee && _).
Qed.

(** X21. [find_event] returns the first event of the list that passes
    the time test (the time text occurs inside the event's HH:MM start)
    or the attendee test (the name occurs inside the subject, both in
    lower case); every event before it passes neither. It returns none
    exactly when no event of the list passes. *)
Theorem find_event_first_match events time attendee :
  match find_event events time attendee with
  | Some event =>
      exists before after,
        events = before ++ event :: after
        /\ event_matches time attendee event = true
        /\ Forall (fun e => event_matches time attendee e = false) before
  | None => Forall (fun e => event_matches time attendee e = false) events
  end.
Proof.
  induction events as [|event rest IH].
  - constructor.
  - rewrite find_event_cons.
    destruct (event_matches time attendee event) eqn:Hm.
    + exists [], rest. repeat split; [assumption | constructor].
    + destruct (find_event rest time attendee) as [found|].
      * destruct IH as (before & after & -> & Hfound & Hbefore).
        exists (event :: before), after.
        repeat split; [assumption | now constructor].
      * now constructor.
Qed.

(** X22. A search with no usable criterion finds nothing: when the
    time and the attendee are both missing or empty, the result is none
    whatever the events (an empty text is not taken as "matches
    everything"). *)
Theorem find_event_no_criterion events time attendee :
  truthy time = false ->
  truthy attendee = false ->
  find_event events time attendee = None.
Proof.
  intros Ht Ha. induction events as [|event rest IH]; [reflexivity|].
  rewrite find_event_cons. unfold event_matches. now rewrite Ht, Ha.
Qed.

Definition standup : listed_event := mkListed (Some "Daily standup") "09:30".
Definition review : listed_event := mkListed (Some "Review with John") "12:00".

Lemma find_event_no_criterion_witness :
  find_event [standup; review] (Some "") None = None.
Proof.
  apply (find_event_no_criterion [standup; review] (Some "") None);
    reflexivity.
Defined.

Lemma lower_empty_iff s : lower s = "" <-> s = "".
Proof. destruct s; simpl; split; intros H; (reflexivity || discriminate H). Qed.

Lemma truthy_lower a a' :
  lower a = lower a' -> truthy (Some a) = truthy (Some a').
Proof.
  intros Hl. simpl.
  destruct (String.eqb_spec a "") as [Ha|Ha],
           (String.eqb_spec a' "") as [Ha'|Ha']; try reflexivity; exfalso.
  - subst a. simpl in Hl. symmetry in Hl.
    apply (proj1 (lower_empty_iff _)) in Hl. now apply Ha'.
  - subst a'. simpl in Hl. apply (proj1 (lower_empty_iff _)) in Hl.
    now apply Ha.
Qed.

(** X23. The attendee test ignores case: two attendee names that are
    equal once lowered find the same event in every list. *)
Theorem find_event_attendee_case events time a a' :
  lower a = lower a' ->
  find_event events time (Some a) = find_event events time (Some a').
Proof.
  intros Hl. induction events as [|event rest IH]; [reflexivity|].
  rewrite !find_event_cons, IH. unfold event_matches.
  rewrite (truthy_lower _ _ Hl). simpl default. now rewrite Hl.
Qed.

Lemma find_event_attendee_case_witness :
  find_event [standup; review] None (Some "JOHN")
  = find_event [standup; review] None (Some "john").
Proof.
  apply (find_event_attendee_case [standup; review] None "JOHN" "john").
  reflexivity.
Defined.

End FindEvent.


(** ** The worker that uses the token *)

Section WorkerReplies.
Import Py Datetime World MsGraphClient MsGraphClientEvents.
Import SlackClaudiaWorkerFunction.
Local Open Scope string_scope.
Local Open Scope list_scope.
Local Open Scope Z_scope.

(** The worker's environment with another token world. *)
Definition with_world (w : world) (s : env) : env :=
  mkEnv w (agent s) (decode s) (graph s) (slack_fault s) (effects s).

(** Slack accepts every message. *)
Definition slack_works (s : env) : Prop := forall n, slack_fault s n = false.

(** From [s] to [s'] the outside services are the same and effects
    were only added. *)
Definition later (s s' : env) : Prop :=
  agent s' = agent s /\ decode s' = decode s /\ graph s' = graph s
  /\ slack_fault s' = slack_fault s
  /\ exists more, effects s' = effects s ++ more.

Definition steady {A} (m : W A) : Prop := forall s, later s (m s).2.

(** When [m] returns, its last effect is a message to [channel]. *)
Definition replies {A} (channel : string) (m : W A) : Prop :=
  forall s a, (m s).1 = Returned a ->
    exists before msg,
      effects (m s).2 = effects s ++ before ++ [Slack channel msg].

Lemma later_refl s : later s s.
Proof. repeat split. exists []. now rewrite app_nil_r. Qed.

Lemma later_trans s1 s2 s3 : later s1 s2 -> later s2 s3 -> later s1 s3.
Proof.
  intros (Ha & Hd & Hg & Hf & m1 & He) (Ha' & Hd' & Hg' & Hf' & m2 & He').
  repeat split; try congruence.
  exists (m1 ++ m2). now rewrite He', He, app_assoc.
Qed.

Lemma later_record x s : later s (record x s).
Proof. repeat split. now exists [x]. Qed.

Lemma steady_ret {A} (a : A) : steady (wret a).
Proof. intros s. apply later_refl. Qed.

Lemma steady_raise {A} e : steady (@wraise A e).
Proof. intros s. apply later_refl. Qed.

Lemma steady_bind {A B} (m : W A) (k : A -> W B) :
  steady m -> (forall a, steady (k a)) -> steady (wbind m k).
Proof.
  intros Hm Hk s. unfold wbind. specialize (Hm s).
  destruct (m s) as [[a|e] s1]; simpl in *; [|assumption].
  eapply later_trans; [exact Hm | apply Hk].
Qed.

Lemma steady_with_tokens {A} (m : M A) : steady (with_tokens m).
Proof.
  intros s. unfold with_tokens. destruct (m (tokens s)) as [r w']. simpl.
  repeat split. exists []. now rewrite app_nil_r.
Qed.

Lemma steady_post channel m : steady (chat_postMessage channel m).
Proof.
  intros s. unfold chat_postMessage.
  destruct (slack_fault s _); apply later_record.
Qed.

Lemma steady_agent session input : steady (invoke_agent session input).
Proof. intros s. apply later_record. Qed.

Lemma steady_read text : steady (read_action text).
Proof. intros s. apply later_refl. Qed.

Lemma steady_events_of call : steady (events_of call).
Proof.
  apply steady_bind; [intros s; apply later_record|].
  intros [| |]; (apply steady_ret || apply steady_raise).
Qed.

Lemma steady_create token subject t1 t2 c :
  steady (create_calendar_event token subject t1 t2 c).
Proof.
  apply steady_bind; [intros s; apply later_record|].
  intros [| |]; (apply steady_ret || apply steady_raise).
Qed.

Lemma steady_find_slot token day d pref :
  steady (find_free_time_slot_for token day d pref).
Proof.
  intros s. unfold find_free_time_slot_for.
  pose proof (steady_events_of (CalendarDay token day) s) as H.
  unfold get_calendar_events_for_day.
  now destruct (events_of (CalendarDay token day) s).
Qed.

Lemma steady_parse t : steady (parse t).
Proof. destruct t; (apply steady_ret || apply steady_raise). Qed.

Lemma replies_post channel m : replies channel (chat_postMessage channel m).
Proof.
  intros s a _. exists [], m. unfold chat_postMessage.
  now destruct (slack_fault s _).
Qed.

Lemma replies_raise {A} channel e : replies channel (@wraise A e).
Proof. intros s a H. discriminate H. Qed.

Lemma replies_bind {A B} channel (m : W A) (k : A -> W B) :
  steady m -> (forall a, replies channel (k a)) ->
  replies channel (wbind m k).
Proof.
  intros Hm Hk s b. unfold wbind.
  destruct (Hm s) as (_ & _ & _ & _ & more & Hmore).
  destruct (m s) as [[a|e] s1]; simpl in *; [|discriminate].
  intros Hb. destruct (Hk a s1 b Hb) as (before & msg & Heff).
  exists (more ++ before), msg. now rewrite Heff, Hmore, <- !app_assoc.
Qed.

(** Every way through the [try] block that returns ends by posting to
    the channel of the mention. *)
Lemma act_replies user_id channel_id message_text access_token :
  replies channel_id (act user_id channel_id message_text access_token).
Proof.
  unfold act.
  apply replies_bind; [apply steady_with_tokens | intros now].
  apply replies_bind; [apply steady_agent | intros completion_text].
  apply replies_bind; [apply steady_read | intros action].
  cbv zeta.
  destruct (bool_decide (intent action = Some "get_calendar")).
  { apply replies_bind; [apply steady_post | intros _].
    apply replies_bind.
    - destruct (time_given _); [|apply steady_ret].
      apply steady_bind; [apply steady_parse | intros dt; apply steady_ret].
    - intros start_dt_obj.
      apply replies_bind; [apply steady_events_of | intros events].
      destruct events as [|e events]; [apply replies_post|].
      destruct (forallb _ _); [apply replies_post | apply replies_raise]. }
  destruct (bool_decide (intent action = Some "create_event")).
  { destruct (_ || _); [apply replies_post|].
    apply replies_bind.
    - destruct (negb _); [|apply steady_ret].
      apply steady_bind; [apply steady_parse | intros dt; apply steady_ret].
    - intros end_text.
      apply replies_bind; [apply steady_create | intros _].
      apply replies_post. }
  destruct (bool_decide (intent action = Some "get_event_details")).
  { apply replies_bind; [apply steady_events_of | intros events].
    destruct (find_event _ _ _) as [found|]; [|apply replies_post].
    destruct (subject found); [apply replies_post | apply replies_raise]. }
  destruct (bool_decide (intent action = Some "find_and_create_event")).
  { apply replies_bind; [apply steady_find_slot | intros slot].
    destruct slot as [[slot_start slot_end]|]; [|apply replies_post].
    apply replies_bind; [apply steady_create | intros _].
    apply replies_post. }
  apply replies_bind; [apply steady_agent | intros final_response].
  apply replies_post.
Qed.

Lemma act_steady user_id channel_id message_text access_token :
  steady (act user_id channel_id message_text access_token).
Proof.
  unfold act.
  apply steady_bind; [apply steady_with_tokens | intros now].
  apply steady_bind; [apply steady_agent | intros completion_text].
  apply steady_bind; [apply steady_read | intros action].
  cbv zeta.
  destruct (bool_decide (intent action = Some "get_calendar")).
  { apply steady_bind; [apply steady_post | intros _].
    apply steady_bind.
    - destruct (time_given _); [|apply steady_ret].
      apply steady_bind; [apply steady_parse | intros dt; apply steady_ret].
    - intros start_dt_obj.
      apply steady_bind; [apply steady_events_of | intros events].
      destruct events as [|e events]; [apply steady_post|].
      destruct (forallb _ _); [apply steady_post | apply steady_raise]. }
  destruct (bool_decide (intent action = Some "create_event")).
  { destruct (_ || _); [apply steady_post|].
    apply steady_bind.
    - destruct (negb _); [|apply steady_ret].
      apply steady_bind; [apply steady_parse | intros dt; apply steady_ret].
    - intros end_text.
      apply steady_bind; [apply steady_create | intros _].
      apply steady_post. }
  destruct (bool_decide (intent action = Some "get_event_details")).
  { apply steady_bind; [apply steady_events_of | intros events].
    destruct (find_event _ _ _) as [found|]; [|apply steady_post].
    destruct (subject found); [apply steady_post | apply steady_raise]. }
  destruct (bool_decide (intent action = Some "find_and_create_event")).
  { apply steady_bind; [apply steady_find_slot | intros slot].
    destruct slot as [[slot_start slot_end]|]; [|apply steady_post].
    apply steady_bind; [apply steady_create | intros _].
    apply steady_post. }
  apply steady_bind; [apply steady_agent | intros final_response].
  apply steady_post.
Qed.

Lemma later_slack_works s s' : later s s' -> slack_works s -> slack_works s'.
Proof. intros (_ & _ & _ & Hf & _) Hs n. rewrite Hf. apply Hs. Qed.

Lemma post_when_slack_works channel m s :
  slack_works s ->
  chat_postMessage channel m s = (Returned tt, record (Slack channel m) s).
Proof. intros Hs. unfold chat_postMessage. now rewrite Hs. Qed.

(** The handler on a mention, once the token call has answered. *)
Lemma lambda_handler_mention ev s :
  se_type ev = Some "app_mention" ->
  lambda_handler (Body ev) s
  = wbind (with_tokens (get_valid_access_token (se_user ev)))
      (fun access_token =>
         if negb (truthy access_token)
         then wbind (chat_postMessage (se_channel ev) ConnectPrompt)
                    (fun _ => wret Complete)
         else wbind (wtry (act (se_user ev) (se_channel ev) (se_text ev)
                               (default "" access_token))
                          (fun e => chat_postMessage (se_channel ev) (Apology e)))
                    (fun _ => wret Complete)) s.
Proof.
  intros Hm. unfold lambda_handler.
  now rewrite (bool_decide_eq_true_2 _ Hm).
Qed.

Lemma with_tokens_run {A} (m : M A) s :
  with_tokens m s = ((m (tokens s)).1, with_world (m (tokens s)).2 s).
Proof. unfold with_tokens, with_world. now destruct (m (tokens s)). Qed.

(** The handler on a mention of a connected user. *)
Lemma lambda_handler_connected ev s access_token :
  se_type ev = Some "app_mention" ->
  (get_valid_access_token (se_user ev) (tokens s)).1
  = Returned (Some access_token) ->
  access_token <> "" ->
  let s1 := with_world (get_valid_access_token (se_user ev) (tokens s)).2 s in
  lambda_handler (Body ev) s
  = match act (se_user ev) (se_channel ev) (se_text ev) access_token s1 with
    | (Returned _, s2) => (Returned Complete, s2)
    | (Raised e, s2) =>
        match chat_postMessage (se_channel ev) (Apology e) s2 with
        | (Returned _, s3) => (Returned Complete, s3)
        | (Raised e', s3) => (Raised e', s3)
        end
    end.
Proof.
  intros Hm Htok Hne s1.
  rewrite (lambda_handler_mention _ _ Hm). unfold wbind at 1.
  rewrite with_tokens_run, Htok. fold s1.
  assert (Ht : truthy (Some access_token) = true)
    by (simpl; now destruct (String.eqb_spec access_token "")).
  rewrite Ht. simpl. unfold wbind, wtry.
  destruct (act _ _ _ _ s1) as [[[]|e] s2]; [reflexivity|].
  now destruct (chat_postMessage _ _ s2) as [[[]|e'] s3].
Qed.

Lemma lambda_handler_falsy_token ev s access_token :
  se_type ev = Some "app_mention" ->
  (get_valid_access_token (se_user ev) (tokens s)).1 = Returned access_token ->
  truthy access_token = false ->
  slack_fault s (List.length (effects s)) = false ->
  lambda_handler (Body ev) s
  = (Returned Complete,
     record (Slack (se_channel ev) ConnectPrompt)
       (with_world (get_valid_access_token (se_user ev) (tokens s)).2 s)).
Proof.
  intros Hm Htok Hfalsy Hslack.
  rewrite (lambda_handler_mention _ _ Hm). unfold wbind at 1.
  rewrite with_tokens_run, Htok, Hfalsy. simpl.
  unfold wbind, chat_postMessage. simpl. now rewrite Hslack.
Qed.

Lemma lambda_handler_token_raises ev s e :
  se_type ev = Some "app_mention" ->
  (get_valid_access_token (se_user ev) (tokens s)).1 = Raised e ->
  lambda_handler (Body ev) s
  = (Raised e,
     with_world (get_valid_access_token (se_user ev) (tokens s)).2 s).
Proof.
  intros Hm Htok.
  rewrite (lambda_handler_mention _ _ Hm). unfold wbind at 1.
  now rewrite with_tokens_run, Htok.
Qed.

(** X24. When the user's token is stale and the issuer answers the
    refresh with an error that does not contain "invalid_grant" (a
    passing failure on its side), the handler tells the user to connect
    their account and returns complete, although the user's record is
    still in the table, unchanged; the agent is not asked and Graph is
    not called. *)
Theorem lambda_handler_issuer_error ev s it body err :
  se_type ev = Some "app_mention" ->
  faulty GetItem (tokens s) = false ->
  table (tokens s) !! se_user ev = Some it ->
  stale it (clock (tokens s)) ->
  let g := RefreshGrant (ms_refresh_token it) in
  let w1 := log (StoreGet (se_user ev)) (tokens s) in
  reply_to g w1 = Json body ->
  resp_error body = Some err ->
  contains "invalid_grant" (default "" (resp_error_description body)) = false ->
  slack_fault s (List.length (effects s)) = false ->
  let r := lambda_handler (Body ev) s in
  r.1 = Returned Complete
  /\ effects r.2 = effects s ++ [Slack (se_channel ev) ConnectPrompt]
  /\ table (tokens r.2) = table (tokens s)
  /\ table (tokens r.2) !! se_user ev = Some it.
Proof.
  intros Hm Hok Hit Hstale g w1 Hreply Herr Hdesc Hslack r.
  assert (Hget : get_valid_access_token (se_user ev) (tokens s)
                 = (Returned None, after_exchange g w1)).
  { rewrite (get_valid_access_token_stale _ _ _ Hok Hit Hstale).
    apply (refresh_other_error _ _ _ _ _ Hreply Herr Hdesc). }
  unfold r.
  rewrite (lambda_handler_falsy_token ev s None Hm); try assumption;
    [|now rewrite Hget | reflexivity].
  rewrite Hget. simpl. repeat split. assumption.
Qed.

Definition mention (user_id text : string) : slack_event :=
  mkSlackEvent (Some "app_mention") user_id "C-general" text.

(** An environment on top of a token world: the agent always gives
    [completion], read as [answer]; Graph always gives [reply]; Slack
    works. *)
Definition sample_env (w : world) (completion : string)
  (answer : outcome action) (reply : graph_reply) : env :=
  mkEnv w (fun _ _ _ => Returned completion) (fun _ => answer)
        (fun _ _ => reply) (fun _ => false) [].

Definition no_parameters : parameters :=
  mkParameters None None None None None None None None None None None.

Lemma lambda_handler_issuer_error_witness :
  let s := sample_env (sample_world sample_table 6000000000 (Json issuer_busy))
             "{}" (Raised JSONDecodeError) GraphFails in
  let r := lambda_handler (Body (mention "U-alice" "what is on today?")) s in
  r.1 = Returned Complete
  /\ effects r.2 = [Slack "C-general" ConnectPrompt]
  /\ table (tokens r.2) = sample_table
  /\ table (tokens r.2) !! "U-alice" = Some alice.
Proof.
  intros s.
  exact (lambda_handler_issuer_error (mention "U-alice" "what is on today?") s
           alice issuer_busy "temporarily_unavailable"
           eq_refl eq_refl eq_refl eq_refl eq_refl eq_refl eq_refl eq_refl).
Defined.

(** X25. For a mention from a connected user (the token call gives a
    non-empty token) and with Slack working, the handler always returns
    complete, and the last thing it does is post a message to the
    channel the mention came from: whatever the agent, the JSON reading
    of its answer or Graph do, a failure ends in the apology message and
    the user is never left without a reply. *)
Theorem lambda_handler_always_replies ev s access_token :
  se_type ev = Some "app_mention" ->
  (get_valid_access_token (se_user ev) (tokens s)).1
  = Returned (Some access_token) ->
  access_token <> "" ->
  slack_works s ->
  let r := lambda_handler (Body ev) s in
  r.1 = Returned Complete
  /\ exists before msg,
       effects r.2 = effects s ++ before ++ [Slack (se_channel ev) msg].
Proof.
  intros Hm Htok Hne Hslack r. unfold r.
  rewrite (lambda_handler_connected _ _ _ Hm Htok Hne). cbv zeta.
  set (s1 := with_world _ s).
  assert (Hs1 : slack_works s1) by exact Hslack.
  destruct (act (se_user ev) (se_channel ev) (se_text ev) access_token s1)
    as [[[]|e] s2] eqn:Hact.
  - split; [reflexivity|].
    destruct (act_replies (se_user ev) (se_channel ev) (se_text ev)
                access_token s1 tt) as (before & msg & Heff);
      [now rewrite Hact|].
    rewrite Hact in Heff. exists before, msg. exact Heff.
  - pose proof (act_steady (se_user ev) (se_channel ev) (se_text ev)
                  access_token s1) as Hlater.
    rewrite Hact in Hlater.
    rewrite (post_when_slack_works _ _ _ (later_slack_works _ _ Hlater Hs1)).
    split; [reflexivity|].
    destruct Hlater as (_ & _ & _ & _ & more & Hmore). simpl in Hmore.
    exists more, (Apology e). simpl. now rewrite Hmore, <- app_assoc.
Qed.

Definition chat_action : action := mkAction (Some "general_conversation") no_parameters.

Lemma lambda_handler_always_replies_witness :
  let s := sample_env (sample_world sample_table 4000000000 PostFails)
             "Hello!" (Returned chat_action) GraphFails in
  (lambda_handler (Body (mention "U-alice" "hi Claudia")) s).1
  = Returned Complete.
Proof.
  intro s.
  apply (lambda_handler_always_replies (mention "U-alice" "hi Claudia") s "at-1").
  - reflexivity.
  - reflexivity.
  - discriminate.
  - intros n. reflexivity.
Defined.

(** X26. With Slack working, the handler fails on a mention exactly
    when the token call itself raises (a failed POST of the refresh, a
    body that is not JSON or lacks the access token, a failed store
    write): that call is made outside the [try] block, so the exception
    leaves the handler and the user gets no message at all. *)
Theorem lambda_handler_raises_iff ev s e :
  se_type ev = Some "app_mention" ->
  slack_works s ->
  ((lambda_handler (Body ev) s).1 = Raised e
   <-> (get_valid_access_token (se_user ev) (tokens s)).1 = Raised e)
  /\ ((get_valid_access_token (se_user ev) (tokens s)).1 = Raised e ->
      effects (lambda_handler (Body ev) s).2 = effects s).
Proof.
  intros Hm Hslack.
  destruct (get_valid_access_token (se_user ev) (tokens s)).1
    as [tok|e'] eqn:Hget.
  2: { rewrite (lambda_handler_token_raises _ _ _ Hm Hget).
       split; [split; intros [= ->]; reflexivity | intros _; reflexivity]. }
  split; [|discriminate]. split; [|discriminate].
  destruct (truthy tok) eqn:Htruthy.
  - destruct tok as [access_token|]; [|discriminate].
    assert (Hne : access_token <> "")
      by (intros ->; discriminate Htruthy).
    rewrite (lambda_handler_connected _ _ _ Hm Hget Hne). cbv zeta.
    set (s1 := with_world _ s).
    assert (Hs1 : slack_works s1) by exact Hslack.
    destruct (act (se_user ev) (se_channel ev) (se_text ev) access_token s1)
      as [[[]|e2] s2] eqn:Hact; [discriminate|].
    pose proof (act_steady (se_user ev) (se_channel ev) (se_text ev)
                  access_token s1) as Hlater.
    rewrite Hact in Hlater.
    rewrite (post_when_slack_works _ _ _ (later_slack_works _ _ Hlater Hs1)).
    discriminate.
  - rewrite (lambda_handler_falsy_token _ _ _ Hm Hget Htruthy (Hslack _)).
    discriminate.
Qed.

Lemma lambda_handler_raises_iff_witness :
  let s := sample_env (sample_world sample_table 6000000000 PostFails)
             "{}" (Raised JSONDecodeError) GraphFails in
  (lambda_handler (Body (mention "U-alice" "hi Claudia")) s).1
  = Raised ConnectionError
  /\ effects (lambda_handler (Body (mention "U-alice" "hi Claudia")) s).2 = [].
Proof.
  intro s.
  destruct (lambda_handler_raises_iff (mention "U-alice" "hi Claudia") s
              ConnectionError eq_refl (fun n => eq_refl)) as [Hiff Heff].
  split; [apply Hiff | apply Heff]; reflexivity.
Defined.

Lemma post_effects channel m s :
  effects (chat_postMessage channel m s).2 = effects s ++ [Slack channel m].
Proof. unfold chat_postMessage. now destruct (slack_fault s _). Qed.

Lemma create_then_post token subject t1 t2 c channel m s :
  let r := wbind (create_calendar_event token subject t1 t2 c)
                 (fun _ => chat_postMessage channel m) s in
  effects r.2 = effects s ++ [Graph (CreateEvent token subject t1 t2 c)]
  \/ effects r.2
     = effects s ++ [Graph (CreateEvent token subject t1 t2 c); Slack channel m].
Proof.
  cbv zeta. unfold wbind, create_calendar_event, wbind, graph_request.
  destruct (graph s (List.length (effects s)) _); unfold wret, wraise;
    cbv beta iota.
  - now left.
  - right. rewrite post_effects. simpl. now rewrite <- app_assoc.
  - right. rewrite post_effects. simpl. now rewrite <- app_assoc.
Qed.

Lemma with_world_same s : with_world (tokens s) s = s.
Proof. now destruct s. Qed.

(** A slot that the search returns has the asked length and overlaps
    none of the events it was given. *)
Lemma found_slot_is_free events day duration_minutes pref slot_start slot_end :
  find_free_time_slot (Returned events) day duration_minutes pref
  = Returned (Some (slot_start, slot_end)) ->
  slot_end = slot_start + timedelta_minutes duration_minutes
  /\ Forall (fun ev =>
              ~ (instant (ensure_aware (ev_start ev)) < slot_end
                 /\ instant (ensure_aware (ev_end ev)) > slot_start)) events.
Proof.
  intros Hfound.
  destruct (window_start day pref) as [from|e] eqn:Hws.
  2: { rewrite (find_free_time_slot_bad_time _ _ _ _ _ Hws) in Hfound.
       discriminate. }
  destruct (find_free_time_slot_fit events day duration_minutes pref from Hws)
    as (r & Hr & Hfit).
  rewrite Hr in Hfound. injection Hfound as ->.
  destruct Hfit as (k & _ & Hend & _ & Hfree & _).
  split; [assumption|].
  apply Forall_forall. intros ev Hin [Hlt Hgt].
  assert (Hov : overlap (map busy_interval events) slot_start slot_end = true).
  { apply overlap_iff. exists (busy_interval ev).
    split; [apply in_map_iff; exists ev; split; [reflexivity|]|].
    - now apply list_elem_of_In.
    - split; assumption. }
  congruence.
Qed.

(** X27. When the agent answers with the intent find_and_create_event
    and Graph lists the day's events, the worker (inside its [try]
    block) asks the agent, fetches the day, and then: if the search
    finds a slot, it creates one event with exactly the slot's bounds,
    of the asked length (30 minutes by default), that overlaps none of
    the events fetched; if the search finds none, it posts that no slot
    is free and creates nothing; if the search raises, nothing is
    created either. *)
Theorem act_find_and_create_event
  user_id channel_id message_text access_token s completion action events :
  let today := today_of (clock (tokens s)) in
  let ask := Agent user_id (IntentPrompt message_text today) in
  agent s (List.length (effects s)) user_id (IntentPrompt message_text today)
  = Returned completion ->
  decode s completion = Returned action ->
  intent action = Some "find_and_create_event" ->
  let p := params action in
  let day := default today (date p) in
  let duration := default 30 (duration_minutes p) in
  let fetch := Graph (CalendarDay access_token day) in
  graph s (S (List.length (effects s))) (CalendarDay access_token day)
  = GraphEvents events ->
  let r := act user_id channel_id message_text access_token s in
  match find_free_time_slot (Returned (map as_cal_event events)) day duration
                            (preferred_start_time p) with
  | Returned (Some (slot_start, slot_end)) =>
      let create :=
        Graph (CreateEvent access_token (p_subject p)
                 (GoodTime (mkParsed slot_start (Some 0)))
                 (GoodTime (mkParsed slot_end (Some 0)))
                 "Auto-scheduled by Claudia") in
      slot_end = slot_start + timedelta_minutes duration
      /\ Forall (fun e =>
                  ~ (instant (ensure_aware (g_start e)) < slot_end
                     /\ instant (ensure_aware (g_end e)) > slot_start)) events
      /\ (effects r.2 = effects s ++ [ask; fetch; create]
          \/ effects r.2
             = effects s ++ [ask; fetch; create;
                             Slack channel_id
                               (Scheduled (p_subject p) slot_start slot_end)])
  | Returned None =>
      effects r.2 = effects s ++ [ask; fetch; Slack channel_id NoFreeSlot]
  | Raised e =>
      r.1 = Raised e /\ effects r.2 = effects s ++ [ask; fetch]
  end.
Proof.
  intros today ask Hagent Hdecode Hintent p day duration fetch Hgraph r.
  assert (Hr : r = wbind (find_free_time_slot_for access_token day duration
                            (preferred_start_time p))
                 (fun slot =>
                    match slot with
                    | Some (slot_start, slot_end) =>
                        wbind (create_calendar_event access_token (p_subject p)
                                 (GoodTime (mkParsed slot_start (Some 0)))
                                 (GoodTime (mkParsed slot_end (Some 0)))
                                 "Auto-scheduled by Claudia")
                          (fun _ => chat_postMessage channel_id
                                      (Scheduled (p_subject p) slot_start slot_end))
                    | None => chat_postMessage channel_id NoFreeSlot
                    end) (record ask s)).
  { unfold r, act. unfold wbind at 1. rewrite with_tokens_run.
    unfold utcnow. cbn [fst snd]. rewrite with_world_same.
    unfold wbind at 1. unfold invoke_agent at 1.
    fold today. rewrite Hagent. fold ask.
    unfold wbind at 1. unfold read_action at 1. simpl.
    rewrite Hdecode. cbv zeta. rewrite Hintent.
    rewrite !bool_decide_eq_false_2 by discriminate.
    rewrite bool_decide_eq_true_2 by reflexivity.
    reflexivity. }
  assert (Hfetch : find_free_time_slot_for access_token day duration
                     (preferred_start_time p) (record ask s)
                   = (find_free_time_slot (Returned (map as_cal_event events))
                        day duration (preferred_start_time p),
                      record fetch (record ask s))).
  { unfold find_free_time_slot_for, get_calendar_events_for_day, events_of,
      wbind, graph_request. simpl.
    rewrite length_app. simpl. rewrite Nat.add_1_r, Hgraph. reflexivity. }
  unfold wbind at 1 in Hr. rewrite Hfetch in Hr. clearbody r.
  destruct (find_free_time_slot _ day duration _) as [[[a b]|]|e] eqn:Hfind;
    cbv beta iota in Hr; subst r.
  - destruct (found_slot_is_free _ _ _ _ _ _ Hfind) as [Hlen Hfree].
    split; [assumption|]. split.
    + apply Forall_forall. intros e He.
      rewrite Forall_forall in Hfree.
      apply (Hfree (as_cal_event e)). apply list_elem_of_In.
      apply in_map. now apply list_elem_of_In.
    + set (s2 := record fetch (record ask s)).
      assert (Heff2 : effects s2 = effects s ++ [ask; fetch])
        by (unfold s2; simpl; now rewrite <- app_assoc).
      destruct (create_then_post access_token (p_subject p)
                  (GoodTime (mkParsed a (Some 0)))
                  (GoodTime (mkParsed b (Some 0)))
                  "Auto-scheduled by Claudia" channel_id
                  (Scheduled (p_subject p) a b) s2) as [H|H];
        [left | right]; rewrite H, Heff2, <- app_assoc; reflexivity.
  - rewrite post_effects. simpl. rewrite <- !app_assoc. reflexivity.
  - simpl. split; [reflexivity|]. rewrite <- !app_assoc. reflexivity.
Qed.

Definition find_time_action : action :=
  mkAction (Some "find_and_create_event")
    (mkParameters None None (Some "task X") None None None None None None
                  None None).

Definition morning_meeting : graph_event :=
  mkGraphEvent (Some "Planning") (naive (hm 8 0)) (naive (hm 9 0)) "08:00".

Lemma act_find_and_create_event_witness :
  let s := sample_env (sample_world sample_table 4000000000 PostFails)
             "{...}" (Returned find_time_action)
             (GraphEvents [morning_meeting]) in
  hm 9 30 = hm 9 0 + timedelta_minutes 30
  /\ effects (act "U-alice" "C-general" "find me half an hour" "at-1" s).2
     = [Agent "U-alice" (IntentPrompt "find me half an hour" 0);
        Graph (CalendarDay "at-1" 0);
        Graph (CreateEvent "at-1" (Some "task X")
                 (GoodTime (mkParsed (hm 9 0) (Some 0)))
                 (GoodTime (mkParsed (hm 9 30) (Some 0)))
                 "Auto-scheduled by Claudia");
        Slack "C-general" (Scheduled (Some "task X") (hm 9 0) (hm 9 30))].
Proof.
  intro s.
  pose proof (act_find_and_create_event "U-alice" "C-general"
                "find me half an hour" "at-1" s "{...}" find_time_action
                [morning_meeting] eq_refl eq_refl eq_refl eq_refl) as H.
  hnf in H. destruct H as (Hlen & _ & _).
  split; [exact Hlen | reflexivity].
Defined.

(** The access token a Graph call carries. *)
Definition token_of (call : graph_call) : string :=
  match call with
  | CalendarView t _ _ | CalendarDay t _ | CreateEvent t _ _ _ _ => t
  end.

(** The effect stays with this user: a message to this channel, a
    question to the agent in this user's session, or a Graph call with
    this access token. *)
Definition confined (user_id channel_id access_token : string)
  (x : worker_effect) : Prop :=
  match x with
  | Slack channel _ => channel = channel_id
  | Agent session _ => session = user_id
  | Graph call => token_of call = access_token
  end.

Definition keeps {A} (P : worker_effect -> Prop) (m : W A) : Prop :=
  forall s, exists more,
    effects (m s).2 = effects s ++ more /\ Forall P more.

Lemma keeps_nothing {A} P (m : W A) :
  (forall s, effects (m s).2 = effects s) -> keeps P m.
Proof.
  intros H s. exists []. rewrite H, app_nil_r. split; [reflexivity|constructor].
Qed.

Lemma keeps_one {A} P (m : W A) x :
  P x -> (forall s, effects (m s).2 = effects s ++ [x]) -> keeps P m.
Proof.
  intros Hx H s. exists [x]. split; [apply H | now repeat constructor].
Qed.

Lemma keeps_bind {A B} P (m : W A) (k : A -> W B) :
  keeps P m -> (forall a, keeps P (k a)) -> keeps P (wbind m k).
Proof.
  intros Hm Hk s. unfold wbind. destruct (Hm s) as (m1 & He1 & HP1).
  destruct (m s) as [[a|e] s1]; simpl in *.
  - destruct (Hk a s1) as (m2 & He2 & HP2). exists (m1 ++ m2).
    split; [now rewrite He2, He1, app_assoc | now apply Forall_app].
  - now exists m1.
Qed.

Lemma keeps_events_of P call :
  P (Graph call) -> keeps P (events_of call).
Proof.
  intros Hc. apply keeps_bind.
  - now apply (keeps_one P _ (Graph call)).
  - intros [| |]; now apply keeps_nothing.
Qed.

Lemma keeps_create P token subject t1 t2 c :
  P (Graph (CreateEvent token subject t1 t2 c)) ->
  keeps P (create_calendar_event token subject t1 t2 c).
Proof.
  intros Hc. apply keeps_bind.
  - now apply (keeps_one P _ (Graph (CreateEvent token subject t1 t2 c))).
  - intros [| |]; now apply keeps_nothing.
Qed.

Lemma keeps_find_slot P token day d pref :
  P (Graph (CalendarDay token day)) ->
  keeps P (find_free_time_slot_for token day d pref).
Proof.
  intros Hc s. unfold find_free_time_slot_for, get_calendar_events_for_day.
  destruct (keeps_events_of P (CalendarDay token day) Hc s) as (more & He & HP).
  exists more. now destruct (events_of (CalendarDay token day) s).
Qed.

Lemma keeps_post P channel m :
  P (Slack channel m) -> keeps P (chat_postMessage channel m).
Proof.
  intros Hc. apply (keeps_one P _ (Slack channel m)); [assumption|].
  apply post_effects.
Qed.

Lemma keeps_parse P t : keeps P (parse t).
Proof. destruct t; now apply keeps_nothing. Qed.

Lemma keeps_with_tokens {A} P (m : M A) : keeps P (with_tokens m).
Proof.
  apply keeps_nothing. intros s. unfold with_tokens.
  now destruct (m (tokens s)).
Qed.

Lemma act_confined user_id channel_id message_text access_token :
  keeps (confined user_id channel_id access_token)
        (act user_id channel_id message_text access_token).
Proof.
  set (P := confined user_id channel_id access_token).
  assert (Hpost : forall m, keeps P (chat_postMessage channel_id m))
    by (intros m; now apply keeps_post).
  assert (Hagent : forall input, keeps P (invoke_agent user_id input))
    by (intros input; now apply (keeps_one P _ (Agent user_id input))).
  assert (Hraise : forall e, keeps P (@wraise unit e))
    by (intros e; now apply keeps_nothing).
  unfold act.
  apply keeps_bind; [apply keeps_with_tokens | intros now].
  apply keeps_bind; [apply Hagent | intros completion_text].
  apply keeps_bind; [now apply keeps_nothing | intros action].
  cbv zeta.
  destruct (bool_decide (intent action = Some "get_calendar")).
  { apply keeps_bind; [apply Hpost | intros _].
    apply keeps_bind.
    - destruct (time_given _); [|now apply keeps_nothing].
      apply keeps_bind; [apply keeps_parse | intros dt; now apply keeps_nothing].
    - intros start_dt_obj.
      apply keeps_bind; [now apply keeps_events_of | intros events].
      destruct events as [|e events]; [apply Hpost|].
      destruct (forallb _ _); [apply Hpost | apply Hraise]. }
  destruct (bool_decide (intent action = Some "create_event")).
  { destruct (_ || _); [apply Hpost|].
    apply keeps_bind.
    - destruct (negb _); [|now apply keeps_nothing].
      apply keeps_bind; [apply keeps_parse | intros dt; now apply keeps_nothing].
    - intros end_text.
      apply keeps_bind; [now apply keeps_create | intros _]. apply Hpost. }
  destruct (bool_decide (intent action = Some "get_event_details")).
  { apply keeps_bind; [now apply keeps_events_of | intros events].
    destruct (find_event _ _ _) as [found|]; [|apply Hpost].
    destruct (subject found); [apply Hpost | apply Hraise]. }
  destruct (bool_decide (intent action = Some "find_and_create_event")).
  { apply keeps_bind; [now apply keeps_find_slot | intros slot].
    destruct slot as [[slot_start slot_end]|]; [|apply Hpost].
    apply keeps_bind; [now apply keeps_create | intros _]. apply Hpost. }
  apply keeps_bind; [apply Hagent | intros final_response].
  apply Hpost.
Qed.

(** X28. Whatever the agent answers, everything the handler does for
    a mention stays with that user: every Slack message goes to the
    channel of the mention, every question to the agent is asked in the
    user's own session, and every Graph call carries the access token
    that [get_valid_access_token] returned for this user. Without a
    token there is no agent and no Graph call at all. *)
Theorem lambda_handler_confined ev s access_token :
  se_type ev = Some "app_mention" ->
  (get_valid_access_token (se_user ev) (tokens s)).1 = Returned access_token ->
  exists more,
    effects (lambda_handler (Body ev) s).2 = effects s ++ more
    /\ Forall (confined (se_user ev) (se_channel ev) (default "" access_token))
              more
    /\ (truthy access_token = false ->
        more = [Slack (se_channel ev) ConnectPrompt]).
Proof.
  intros Hm Hget.
  destruct (truthy access_token) eqn:Htruthy.
  - destruct access_token as [tok|]; [|discriminate].
    assert (Hne : tok <> "") by (intros ->; discriminate Htruthy).
    rewrite (lambda_handler_connected _ _ _ Hm Hget Hne). cbv zeta.
    set (s1 := with_world _ s). simpl default.
    destruct (act_confined (se_user ev) (se_channel ev) (se_text ev) tok s1)
      as (more & Heff & HP).
    destruct (act _ _ _ _ s1) as [[[]|e] s2]; simpl in Heff.
    + exists more. split; [assumption | split; [assumption | discriminate]].
    + pose proof (post_effects (se_channel ev) (Apology e) s2) as Hpost.
      destruct (chat_postMessage (se_channel ev) (Apology e) s2)
        as [[[]|e'] s3] eqn:Hc; simpl in Hpost;
        exists (more ++ [Slack (se_channel ev) (Apology e)]);
        (split; [simpl; now rewrite Hpost, Heff, app_assoc
                | split; [apply Forall_app; split; [assumption|];
                          now repeat constructor
                         | discriminate]]).
  - exists [Slack (se_channel ev) ConnectPrompt].
    split; [|split; [now repeat constructor | reflexivity]].
    rewrite (lambda_handler_mention _ _ Hm). unfold wbind at 1.
    rewrite with_tokens_run, Hget, Htruthy. simpl.
    unfold wbind, chat_postMessage. simpl.
    now destruct (slack_fault s _).
Qed.

Lemma lambda_handler_confined_witness :
  let s := sample_env (sample_world sample_table 4000000000 PostFails)
             "{...}" (Returned find_time_action)
             (GraphEvents [morning_meeting]) in
  exists more,
    effects (lambda_handler (Body (mention "U-alice" "find me time")) s).2
    = effects s ++ more
    /\ Forall (confined "U-alice" "C-general" "at-1") more
    /\ (truthy (Some "at-1") = false -> more = [Slack "C-general" ConnectPrompt]).
Proof.
  intro s.
  apply (lambda_handler_confined (mention "U-alice" "find me time") s
           (Some "at-1")); reflexivity.
Defined.

End WorkerReplies.

(** ** The allow-list as a guard of the provider *)

Section ToolBridgeGuard.
Import Py MCPClient MCPClientChecks.
Local Open Scope string_scope.
Local Open Scope list_scope.
Local Open Scope Z_scope.

(** What a call adds to the log of invocations. *)
Lemma call_mcp_tool_log self tool_name parameters p :
  exists n : nat,
    (n <= Z.to_nat (max_retries self + 1))%nat
    /\ (n <> 0%nat -> tool_name ∈ available_tools self)
    /\ (call_mcp_tool self tool_name parameters p).2
       = delivered (_create_mcp_request tool_name parameters) n p.
Proof.
  destruct (decide (tool_name ∈ available_tools self)) as [Hin|Hout].
  - rewrite (call_mcp_tool_listed _ _ _ _ Hin).
    destruct (attempt_loop_cases self
                (_create_mcp_request tool_name parameters)
                (range (max_retries self + 1)) p)
      as [[_ ->] | (k & r & Hk & _ & _ & ->)]; simpl;
      rewrite range_length in *.
    + exists (Z.to_nat (max_retries self + 1)).
      split; [lia | split; [intros _; exact Hin | reflexivity]].
    + exists (S k). split; [lia | split; [intros _; exact Hin | reflexivity]].
  - rewrite (call_mcp_tool_unlisted _ _ _ _ Hout). exists 0%nat.
    split; [lia | split; [intros H; now destruct H |]].
    unfold delivered. simpl. rewrite app_nil_r. now destruct p.
Qed.

(** X29. The provider only ever sees allow-listed tools: every request
    a call adds to the log of invocations is a tools/call request that
    names the tool asked for, and that tool is in the allow-list;
    requests already in the log are left as they are. *)
Theorem call_mcp_tool_only_listed self tool_name parameters p request :
  In request (invocations (call_mcp_tool self tool_name parameters p).2) ->
  In request (invocations p)
  \/ (request = _create_mcp_request tool_name parameters
      /\ params_name request = tool_name
      /\ method request = "tools/call"
      /\ tool_name ∈ available_tools self).
Proof.
  destruct (call_mcp_tool_log self tool_name parameters p)
    as (n & _ & Hlisted & ->).
  unfold delivered. simpl. rewrite in_app_iff.
  intros [Hold | Hnew]; [now left | right].
  apply repeat_spec in Hnew as Heq. subst request.
  repeat split. apply Hlisted. intros ->. destruct Hnew.
Qed.

Lemma call_mcp_tool_only_listed_witness :
  let p := mkProvider third_time_lucky [] in
  let request := _create_mcp_request "send-mail" None in
  In request [] \/
  (request = _create_mcp_request "send-mail" None
   /\ params_name request = "send-mail"
   /\ method request = "tools/call"
   /\ "send-mail" ∈ available_tools default_client).
Proof.
  intros p request.
  apply (call_mcp_tool_only_listed default_client "send-mail" None p request).
  vm_compute. now left.
Defined.

End ToolBridgeGuard.


(** ** The worker that uses the bridge *)

Section ToolWorker.
Import Py MCPClient MCPClientChecks SlackClaudiaWorkerFunctionMCP.
Local Open Scope string_scope.
Local Open Scope list_scope.
Local Open Scope Z_scope.

Variable self : client.

(** The most runs one call of the bridge can make. *)
Definition budget : nat := Z.to_nat (max_retries self + 1).

(** The request names an allow-listed tool. *)
Definition listed (request : mcp_request) : Prop :=
  params_name request ∈ available_tools self.

(** [m] leaves the outside services as they are, only adds effects,
    and runs the provider at most [n] times, on allow-listed tools. *)
Definition tame (n : nat) {A} (m : W A) : Prop :=
  forall s,
    agent (m s).2 = agent s /\ decode (m s).2 = decode s
    /\ present (m s).2 = present s /\ slack_fault (m s).2 = slack_fault s
    /\ (exists more, effects (m s).2 = effects s ++ more)
    /\ exists requests,
         provider_of (m s).2
         = mkProvider (behaviour (provider_of s))
                      (invocations (provider_of s) ++ requests)
         /\ (List.length requests <= n)%nat
         /\ Forall listed requests.

Definition tool_replies {A} (channel : string) (m : W A) : Prop :=
  forall s a, (m s).1 = Returned a ->
    exists before msg,
      effects (m s).2 = effects s ++ before ++ [Slack channel msg].

Lemma no_requests (p : provider) :
  p = mkProvider (behaviour p) (invocations p ++ [])
  /\ (List.length (@nil mcp_request) <= 0)%nat
  /\ Forall listed [].
Proof.
  split; [rewrite app_nil_r; now destruct p | split; [simpl; lia | constructor]].
Qed.

Lemma tame_same {A} (m : W A) :
  (forall s, exists x, (m s).2 = s \/ (m s).2 = record x s) -> tame 0 m.
Proof.
  intros H s. destruct (H s) as (x & [-> | ->]); simpl.
  - refine (conj eq_refl (conj eq_refl (conj eq_refl (conj eq_refl
              (conj _ _))))).
    + exists []. now rewrite app_nil_r.
    + exists []. apply no_requests.
  - refine (conj eq_refl (conj eq_refl (conj eq_refl (conj eq_refl
              (conj _ _))))).
    + now exists [x].
    + exists []. apply no_requests.
Qed.

Lemma tame_ret {A} (a : A) : tame 0 (wret a).
Proof. apply tame_same. intros s. exists (Slack "" NotSure). now left. Qed.

Lemma tame_raise {A} e : tame 0 (@wraise A e).
Proof. apply tame_same. intros s. exists (Slack "" NotSure). now left. Qed.

Lemma tame_post channel m : tame 0 (chat_postMessage channel m).
Proof.
  apply tame_same. intros s. exists (Slack channel m). right.
  unfold chat_postMessage. now destruct (slack_fault s _).
Qed.

Lemma tame_agent session input : tame 0 (invoke_agent session input).
Proof. apply tame_same. intros s. exists (Agent session input). now right. Qed.

Lemma tame_read text : tame 0 (read_action text).
Proof. apply tame_same. intros s. exists (Slack "" NotSure). now left. Qed.

Lemma tame_format how data : tame 0 (format_result how data).
Proof. apply tame_same. intros s. exists (Slack "" NotSure). now left. Qed.

Lemma tame_weaken {A} n n' (m : W A) : (n <= n')%nat -> tame n m -> tame n' m.
Proof.
  intros Hle Hm s.
  destruct (Hm s) as (Ha & Hd & Hp & Hf & He & reqs & Hr & Hn & Hl).
  refine (conj Ha (conj Hd (conj Hp (conj Hf (conj He _))))).
  exists reqs. split; [assumption | split; [lia | assumption]].
Qed.

Lemma tame_bind {A B} n1 n2 (m : W A) (k : A -> W B) :
  tame n1 m -> (forall a, tame n2 (k a)) -> tame (n1 + n2) (wbind m k).
Proof.
  intros Hm Hk s. unfold wbind.
  destruct (Hm s) as (Ha & Hd & Hp & Hf & (m1 & He) & r1 & Hr & Hn & Hl).
  destruct (m s) as [[a|e] s1]; simpl in *.
  - destruct (Hk a s1)
      as (Ha' & Hd' & Hp' & Hf' & (m2 & He') & r2 & Hr' & Hn' & Hl').
    split; [congruence|]. split; [congruence|]. split; [congruence|].
    split; [congruence|]. split.
    + exists (m1 ++ m2). now rewrite He', He, app_assoc.
    + exists (r1 ++ r2). split; [|split].
      * rewrite Hr', Hr. simpl. now rewrite app_assoc.
      * rewrite length_app. lia.
      * now apply Forall_app.
  - refine (conj Ha (conj Hd (conj Hp (conj Hf (conj _ _))))).
    + now exists m1.
    + exists r1. split; [assumption | split; [lia | assumption]].
Qed.

Lemma tame_call tool_name parameters :
  tame budget (call_tool self tool_name parameters).
Proof.
  destruct tool_name as [name|]; [|apply (tame_weaken 0); [lia | apply tame_ret]].
  intros s. unfold call_tool, on_provider.
  destruct (call_mcp_tool_log self name parameters (provider_of s))
    as (n & Hn & Hlisted & Hlog).
  destruct (call_mcp_tool self name parameters (provider_of s)) as [r p'].
  simpl in *. subst p'.
  refine (conj eq_refl (conj eq_refl (conj eq_refl (conj eq_refl
            (conj _ _))))).
  { exists []. now rewrite app_nil_r. }
  exists (repeat (_create_mcp_request name parameters) n).
  split; [reflexivity | split].
  - now rewrite repeat_length.
  - apply Forall_forall. intros q Hq. apply list_elem_of_In in Hq.
    apply repeat_spec in Hq as Heq. subst q. apply Hlisted.
    intros ->. destruct Hq.
Qed.

Lemma tame_check : tame budget (on_provider (check_authentication self)).
Proof.
  intros s. unfold on_provider, check_authentication.
  destruct (call_mcp_tool_log self "get-current-user" None (provider_of s))
    as (n & Hn & Hlisted & Hlog).
  destruct (call_mcp_tool self "get-current-user" None (provider_of s))
    as [r p'].
  simpl in *. subst p'.
  refine (conj eq_refl (conj eq_refl (conj eq_refl (conj eq_refl
            (conj _ _))))).
  { exists []. now rewrite app_nil_r. }
  exists (repeat (_create_mcp_request "get-current-user" None) n).
  split; [reflexivity | split].
  - now rewrite repeat_length.
  - apply Forall_forall. intros q Hq. apply list_elem_of_In in Hq.
    apply repeat_spec in Hq as Heq. subst q. apply Hlisted.
    intros ->. destruct Hq.
Qed.

(** The text to post is worked out with at most one call of the
    bridge. *)
Lemma tool_act_tame user_id channel_id message_text :
  tame budget (act self user_id channel_id message_text).
Proof.
  unfold act.
  apply (tame_bind 0 budget); [apply tame_agent | intros completion_text].
  apply (tame_bind 0 budget); [apply tame_read | intros action].
  apply (tame_weaken (budget + 0)); [lia|].
  apply tame_bind; [|intros response_text; apply tame_post].
  destruct (use_mcp action).
  - apply (tame_bind 0 budget); [apply tame_post | intros _].
    apply (tame_weaken (budget + 0)); [lia|].
    apply tame_bind; [apply tame_call | intros result].
    destruct (success result).
    + apply (tame_bind 0 0); [apply tame_format | intros text; apply tame_ret].
    + destruct (bool_decide _); apply tame_ret.
  - cbv zeta. destruct (bool_decide (legacy_intent action = Some "get_calendar")).
    + apply (tame_bind 0 budget); [apply tame_post | intros _].
      apply (tame_weaken (budget + 0)); [lia|].
      apply tame_bind; [apply tame_call | intros result].
      destruct (success result); [|apply tame_ret].
      apply (tame_bind 0 0); [apply tame_format | intros text; apply tame_ret].
    + apply (tame_weaken 0); [lia|].
      destruct (bool_decide _); [|apply tame_ret].
      apply (tame_bind 0 0); [apply tame_agent | intros text; apply tame_ret].
Qed.

Lemma tool_replies_bind {A B} n channel (m : W A) (k : A -> W B) :
  tame n m -> (forall a, tool_replies channel (k a)) ->
  tool_replies channel (wbind m k).
Proof.
  intros Hm Hk s b. unfold wbind.
  destruct (Hm s) as (_ & _ & _ & _ & (more & Hmore) & _).
  destruct (m s) as [[a|e] s1]; simpl in *; [|discriminate].
  intros Hb. destruct (Hk a s1 b Hb) as (before & msg & Heff).
  exists (more ++ before), msg. now rewrite Heff, Hmore, <- !app_assoc.
Qed.

Lemma tool_post_effects channel m s :
  effects (chat_postMessage channel m s).2 = effects s ++ [Slack channel m].
Proof. unfold chat_postMessage. now destruct (slack_fault s _). Qed.

Lemma tool_act_replies user_id channel_id message_text :
  tool_replies channel_id (act self user_id channel_id message_text).
Proof.
  pose proof (tool_act_tame user_id channel_id message_text) as Htame.
  unfold act in *.
  apply (tool_replies_bind 0); [apply tame_agent | intros completion_text].
  apply (tool_replies_bind 0); [apply tame_read | intros action].
  eapply (tool_replies_bind budget).
  - destruct (use_mcp action).
    + apply (tame_weaken (0 + (budget + 0))); [lia|].
      apply tame_bind; [apply tame_post | intros _].
      apply tame_bind; [apply tame_call | intros result].
      destruct (success result).
      * apply (tame_bind 0 0); [apply tame_format | intros text; apply tame_ret].
      * destruct (bool_decide _); apply tame_ret.
    + cbv zeta.
      destruct (bool_decide (legacy_intent action = Some "get_calendar")).
      * apply (tame_weaken (0 + (budget + 0))); [lia|].
        apply tame_bind; [apply tame_post | intros _].
        apply tame_bind; [apply tame_call | intros result].
        destruct (success result); [|apply tame_ret].
        apply (tame_bind 0 0); [apply tame_format | intros text; apply tame_ret].
      * apply (tame_weaken 0); [lia|].
        destruct (bool_decide _); [|apply tame_ret].
        apply (tame_bind 0 0); [apply tame_agent | intros text; apply tame_ret].
  - intros response_text s a _. exists [], response_text.
    apply tool_post_effects.
Qed.

(** X30. For a mention, whatever the agent answers: the handler runs
    the provider at most twice the bridge's budget of
    [max_retries + 1] runs (once for the authentication check, at most
    once for a tool), and only ever with allow-listed tool names, even
    though the tool name comes from the agent. When Slack works it
    always returns complete, and the last thing it does is post a
    message to the channel of the mention. *)
Theorem mcp_lambda_handler_bounded ev s :
  SlackClaudiaWorkerFunction.se_type ev = Some "app_mention" ->
  let r := lambda_handler self (SlackClaudiaWorkerFunction.Body ev) s in
  (exists requests,
      invocations (provider_of r.2)
      = invocations (provider_of s) ++ requests
      /\ (List.length requests <= 2 * budget)%nat
      /\ Forall listed requests)
  /\ ((forall n, slack_fault s n = false) ->
      r.1 = Returned SlackClaudiaWorkerFunction.Complete
      /\ exists before msg,
           effects r.2
           = effects s ++ before
             ++ [Slack (SlackClaudiaWorkerFunction.se_channel ev) msg]).
Proof.
  intros Hm r.
  set (channel_id := SlackClaudiaWorkerFunction.se_channel ev).
  set (user_id := SlackClaudiaWorkerFunction.se_user ev).
  set (message_text := SlackClaudiaWorkerFunction.se_text ev).
  set (notice := fun authenticated : bool =>
                   if negb authenticated
                   then chat_postMessage channel_id AuthenticationNotice
                   else wret tt).
  set (guarded := wtry (act self user_id channel_id message_text)
                    (fun e => chat_postMessage channel_id (Apology e))).
  assert (Hr : r = wbind (on_provider (check_authentication self))
                     (fun authenticated =>
                        wbind (notice authenticated)
                          (fun _ => wbind guarded
                             (fun _ => wret SlackClaudiaWorkerFunction.Complete)))
                     s).
  { unfold r, lambda_handler. now rewrite (bool_decide_eq_true_2 _ Hm). }
  assert (Hguarded : tame budget guarded).
  { intros s0. unfold guarded, wtry.
    pose proof (tool_act_tame user_id channel_id message_text s0) as Hact.
    destruct (act self user_id channel_id message_text s0) as [[[]|e] s1];
      [exact Hact|].
    simpl in Hact.
    destruct Hact as (Ha & Hd & Hp & Hf & (m1 & He) & r1 & Hr1 & Hn & Hl).
    destruct (tame_post channel_id (Apology e) s1)
      as (Ha' & Hd' & Hp' & Hf' & (m2 & He') & r2 & Hr2 & Hn' & Hl').
    split; [congruence|]. split; [congruence|]. split; [congruence|].
    split; [congruence|]. split.
    - exists (m1 ++ m2). now rewrite He', He, app_assoc.
    - exists (r1 ++ r2). split; [|split].
      + rewrite Hr2, Hr1. simpl. now rewrite app_assoc.
      + rewrite length_app. lia.
      + now apply Forall_app. }
  assert (Hnotice : forall b, tame 0 (notice b)).
  { intros b. unfold notice. destruct (negb b); [apply tame_post | apply tame_ret]. }
  assert (Htame : tame (2 * budget)
                    (wbind (on_provider (check_authentication self))
                       (fun authenticated =>
                          wbind (notice authenticated)
                            (fun _ => wbind guarded
                               (fun _ => wret SlackClaudiaWorkerFunction.Complete))))).
  { apply (tame_weaken (budget + (0 + (budget + 0)))); [lia|].
    apply tame_bind; [apply tame_check | intros b].
    apply tame_bind; [apply Hnotice | intros _].
    apply tame_bind; [apply Hguarded | intros _; apply tame_ret]. }
  split.
  - destruct (Htame s) as (_ & _ & _ & _ & _ & reqs & Hprov & Hn & Hl).
    rewrite <- Hr in Hprov. exists reqs.
    split; [exact (f_equal invocations Hprov) | split; assumption].
  - intros Hslack. clearbody r.
    unfold wbind at 1 in Hr.
    pose proof (tame_check s) as Hcheck.
    destruct (on_provider (check_authentication self) s) as [[b|e0] s1] eqn:Hc.
    2: { unfold on_provider in Hc.
         destruct (check_authentication self (provider_of s)); discriminate. }
    simpl in Hcheck.
    destruct Hcheck as (_ & _ & _ & Hf1 & (m1 & He1) & _).
    unfold wbind at 1 in Hr.
    pose proof (Hnotice b s1) as Hn1.
    assert (Hnot : exists s2, notice b s1 = (Returned tt, s2)).
    { unfold notice. destruct (negb b); [|now exists s1].
      unfold chat_postMessage. rewrite Hf1, Hslack. eauto. }
    destruct Hnot as (s2 & Hs2). rewrite Hs2 in Hr, Hn1. simpl in Hn1.
    destruct Hn1 as (_ & _ & _ & Hf2 & (m2 & He2) & _).
    unfold wbind, guarded, wtry in Hr.
    pose proof (tool_act_tame user_id channel_id message_text s2) as Hact.
    pose proof (tool_act_replies user_id channel_id message_text s2) as Hrep.
    destruct (act self user_id channel_id message_text s2)
      as [[[]|e] s3] eqn:Hrun.
    + subst r. split; [reflexivity|].
      destruct (Hrep tt eq_refl) as (before & msg & Heff). simpl in Heff.
      exists (m1 ++ m2 ++ before), msg.
      etransitivity; [exact Heff|].
      now rewrite He2, He1, <- !app_assoc.
    + simpl in Hact. destruct Hact as (_ & _ & _ & Hf3 & (m3 & He3) & _).
      unfold chat_postMessage in Hr. rewrite Hf3, Hf2, Hf1, Hslack in Hr.
      subst r. split; [reflexivity|].
      exists (m1 ++ m2 ++ m3), (Apology e).
      etransitivity; [reflexivity|]. simpl.
      now rewrite He3, He2, He1, <- !app_assoc.
Qed.

End ToolWorker.

Lemma mcp_lambda_handler_bounded_witness :
  let s := SlackClaudiaWorkerFunctionMCP.mkEnv
             (MCPClient.mkProvider third_time_lucky [])
             (fun _ _ _ => Py.Returned "{...}"%string)
             (fun _ => Py.Returned
                         (SlackClaudiaWorkerFunctionMCP.mkMcpAction true
                            (Some "drop-database"%string) None None))
             (fun _ _ => Py.Returned "done"%string)
             (fun _ => false) [] in
  let r := SlackClaudiaWorkerFunctionMCP.lambda_handler MCPClient.default_client
             (SlackClaudiaWorkerFunction.Body (mention "U-alice" "clean up")) s in
  exists requests,
    MCPClient.invocations (SlackClaudiaWorkerFunctionMCP.provider_of r.2)
    = [] ++ requests
    /\ (List.length requests <= 2 * budget MCPClient.default_client)%nat
    /\ Forall (listed MCPClient.default_client) requests.
Proof.
  intros s r.
  exact (proj1 (mcp_lambda_handler_bounded MCPClient.default_client
                  (mention "U-alice" "clean up") s eq_refl)).
Defined.
